(** * Bedrock adapter (core/llm/llms/Bedrock.ts): credentials, message
      translation and stream decoding.

    The TypeScript class [Bedrock] is embedded function by function.  A
    JavaScript string is the list of its UTF-16 code units; a value that may
    be [undefined] is an [option]; a statement that may throw returns a
    [result]. *)

From Stdlib Require Import Ascii String.
From Stdlib Require Import List NArith ZArith Bool Lia Arith.
From Stdlib Require Import Floats.SpecFloat.
From Stdlib Require Import Sorting.Permutation.
Import ListNotations.

Set Implicit Arguments.
Set Warnings "-register-all".

(** ** JavaScript strings *)

Definition jsString := list N.

(** The code units of an ASCII literal. *)
Definition str (s : string) : jsString :=
  map N_of_ascii (list_ascii_of_string s).

Definition streq (a b : jsString) : bool :=
  if list_eq_dec N.eq_dec a b then true else false.

Definition LF : N := 10.
Definition LBRACKET : N := 91.
Definition RBRACKET : N := 93.
Definition EQUALS : N := 61.
Definition COMMA : N := 44.

(** WhiteSpace and LineTerminator code points of ECMAScript, the ones
    [String.prototype.trim] strips. *)
Definition isWhiteSpace (c : N) : bool :=
  ((9 <=? c) && (c <=? 13) || (c =? 32) || (c =? 160) || (c =? 5760)
   || (8192 <=? c) && (c <=? 8202) || (c =? 8232) || (c =? 8233)
   || (c =? 8239) || (c =? 8287) || (c =? 12288) || (c =? 65279))%N.

Fixpoint trimStart (s : jsString) : jsString :=
  match s with
  | [] => []
  | c :: r => if isWhiteSpace c then trimStart r else s
  end.

Definition trimEnd (s : jsString) : jsString := rev (trimStart (rev s)).

Definition trim (s : jsString) : jsString := trimEnd (trimStart s).

(** [s.split(sep)] for a separator of one code unit. *)
Fixpoint split (sep : N) (s : jsString) : list jsString :=
  match s with
  | [] => [[]]
  | c :: r =>
      if (c =? sep)%N then [] :: split sep r
      else match split sep r with
           | [] => [[c]]
           | p :: ps => (c :: p) :: ps
           end
  end.

Definition startsWith (c : N) (s : jsString) : bool :=
  match s with
  | [] => false
  | d :: _ => (d =? c)%N
  end.

Definition endsWith (c : N) (s : jsString) : bool := startsWith c (rev s).

Definition includes (c : N) (s : jsString) : bool :=
  existsb (fun d => (d =? c)%N) s.

(** [s.slice(1, -1)]. *)
Definition slice_1_m1 (s : jsString) : jsString := removelast (tl s).

(** ** Errors *)

(** [TypeError] and [SyntaxError] are the exceptions the runtime raises in
    the modelled code.  Modelled from the spec: [MissingCredentials] is the
    distinct error of the specification's taxonomy; the class has no
    [throw] statement, so no definition below produces it.
    [TransportError] stands for an exception of the transport, raised by
    [client.send] or by the response stream. *)
Inductive jsError : Type :=
| TypeError
| SyntaxError
| MissingCredentials
| TransportError.

Inductive result (A : Type) : Type :=
| Ok (a : A)
| Throw (e : jsError).

Arguments Ok {A} a.
Arguments Throw {A} e.

Definition bind {A B} (r : result A) (k : A -> result B) : result B :=
  match r with
  | Ok a => k a
  | Throw e => Throw e
  end.

Notation "x <- c ;; k" := (bind c (fun x => k))
  (at level 61, c at next level, right associativity).

(** A [for ... of] loop over an array whose body may throw. *)
Fixpoint forOf {S X} (body : S -> X -> result S) (xs : list X) (s : S)
  : result S :=
  match xs with
  | [] => Ok s
  | x :: r => s' <- body s x ;; forOf body r s'
  end.

(** ** The credentials file *)

(** One profile object: [{}] with the three fields the parser may add. *)
Record Profile : Type := mkProfile {
  accessKeyId : option jsString;
  secretAccessKey : option jsString;
  sessionToken : option jsString
}.

Definition emptyObject : Profile := mkProfile None None None.

Definition set_accessKeyId (v : jsString) (p : Profile) : Profile :=
  mkProfile (Some v) (secretAccessKey p) (sessionToken p).
Definition set_secretAccessKey (v : jsString) (p : Profile) : Profile :=
  mkProfile (accessKeyId p) (Some v) (sessionToken p).
Definition set_sessionToken (v : jsString) (p : Profile) : Profile :=
  mkProfile (accessKeyId p) (secretAccessKey p) (Some v).

(** The object [profiles]: its own properties in creation order, and the
    profile object installed as its prototype, if any.  In JavaScript the
    assignment [profiles["__proto__"] = {}] does not create a property: it
    replaces the prototype of [profiles]. *)
Record Profiles : Type := mkProfiles {
  own : list (jsString * Profile);
  proto : option Profile
}.

Definition newProfiles : Profiles := mkProfiles [] None.

Definition PROTO : jsString := str "__proto__".

Fixpoint assocGet (k : jsString) (l : list (jsString * Profile))
  : option Profile :=
  match l with
  | [] => None
  | (k', v) :: r => if streq k k' then Some v else assocGet k r
  end.

(** An existing property keeps its position, a new one goes last. *)
Fixpoint assocSet (k : jsString) (v : Profile) (l : list (jsString * Profile))
  : list (jsString * Profile) :=
  match l with
  | [] => [(k, v)]
  | (k', v') :: r =>
      if streq k k' then (k, v) :: r else (k', v') :: assocSet k v r
  end.

(** [profiles[k]], for the names this class reads: a section name it has
    just assigned, ["bedrock"] and ["default"].  (No built-in prototype has
    a property of the last two names; [proto = None] under ["__proto__"]
    stands for the built-in prototype, which the parser never reads, since
    it assigns [profiles[currentProfile]] before it reads it.) *)
Definition getProfile (o : Profiles) (k : jsString) : option Profile :=
  if streq k PROTO then proto o else assocGet k (own o).

(** [profiles[k] = v]. *)
Definition setProfile (o : Profiles) (k : jsString) (v : Profile) : Profiles :=
  if streq k PROTO then mkProfiles (own o) (Some v)
  else mkProfiles (assocSet k v (own o)) (proto o).

(** [profiles[k].field = v]: the object under [k] is updated in place;
    reading a field of [undefined] throws. *)
Definition assignField (o : Profiles) (k : jsString)
    (setter : Profile -> Profile) : result Profiles :=
  match getProfile o k with
  | Some p => Ok (setProfile o k (setter p))
  | None => Throw TypeError
  end.

(** [x.trim()] on a destructured array element, [undefined] when the array
    is too short. *)
Definition callTrim (x : option jsString) : result jsString :=
  match x with
  | Some s => Ok (trim s)
  | None => Throw TypeError
  end.

Definition AWS_ACCESS_KEY_ID : jsString := str "aws_access_key_id".
Definition AWS_SECRET_ACCESS_KEY : jsString := str "aws_secret_access_key".
Definition AWS_SESSION_TOKEN : jsString := str "aws_session_token".

Definition ParserState : Type := (Profiles * option jsString)%type.

(** The body of the loop of [_parseCredentialsFile], on the pair
    [(profiles, currentProfile)]. *)
Definition parseLine (st : ParserState) (line : jsString)
  : result ParserState :=
  let '(profiles, currentProfile) := st in
  let trimmedLine := trim line in
  if startsWith LBRACKET trimmedLine && endsWith RBRACKET trimmedLine then
    let name := slice_1_m1 trimmedLine in
    Ok (setProfile profiles name emptyObject, Some name)
  else
    match currentProfile with
    | Some cur =>
        if includes EQUALS trimmedLine then
          let parts := split EQUALS trimmedLine in
          trimmedKey <- callTrim (nth_error parts 0) ;;
          trimmedValue <- callTrim (nth_error parts 1) ;;
          if streq trimmedKey AWS_ACCESS_KEY_ID then
            p <- assignField profiles cur (set_accessKeyId trimmedValue) ;;
            Ok (p, currentProfile)
          else if streq trimmedKey AWS_SECRET_ACCESS_KEY then
            p <- assignField profiles cur (set_secretAccessKey trimmedValue) ;;
            Ok (p, currentProfile)
          else if streq trimmedKey AWS_SESSION_TOKEN then
            p <- assignField profiles cur (set_sessionToken trimmedValue) ;;
            Ok (p, currentProfile)
          else Ok st
        else Ok st
    | None => Ok st
    end.

Definition _parseCredentialsFile (fileContents : jsString) : result Profiles :=
  let lines := split LF (trim fileContents) in
  st <- forOf parseLine lines (newProfiles, None) ;;
  Ok (fst st).

(** *** Enumeration order of the returned object *)

Definition isDigit (c : N) : bool := ((48 <=? c) && (c <=? 57))%N.

Definition digitsValue (s : jsString) : N :=
  fold_left (fun acc c => (10 * acc + (c - 48))%N) s 0%N.

(** An array index: the canonical decimal form of an integer below
    2^32 - 1. *)
Definition isArrayIndex (s : jsString) : bool :=
  match s with
  | [] => false
  | c :: r =>
      forallb isDigit s
      && (negb (c =? 48)%N || match r with [] => true | _ => false end)
      && (digitsValue s <? 4294967295)%N
  end.

Fixpoint insertIndex (k : jsString) (l : list jsString) : list jsString :=
  match l with
  | [] => [k]
  | k' :: r =>
      if (digitsValue k <=? digitsValue k')%N then k :: l
      else k' :: insertIndex k r
  end.

Definition sortIndices (l : list jsString) : list jsString :=
  fold_right insertIndex [] l.

(** The order in which the own keys of an object are enumerated: array
    indices by ascending value, then the other names by creation. *)
Definition propertyOrder (created : list jsString) : list jsString :=
  sortIndices (filter isArrayIndex created)
  ++ filter (fun k => negb (isArrayIndex k)) created.

(** [Object.keys(profiles)]. *)
Definition keys (o : Profiles) : list jsString :=
  propertyOrder (map fst (own o)).

(** ** Selection of the credentials (first statements of [_streamChat]) *)

Record Credentials : Type := mkCredentials {
  cred_accessKeyId : option jsString;
  cred_secretAccessKey : option jsString;
  cred_sessionToken : jsString
}.

(** [a ?? b]. *)
Definition nullish {A} (a b : option A) : option A :=
  match a with
  | Some x => Some x
  | None => b
  end.

(** [x || empty] on a string that may be [undefined]: the empty string is
    falsy as well. *)
Definition orEmpty (x : option jsString) : jsString :=
  match x with
  | Some (c :: r) => c :: r
  | _ => []
  end.

Definition BEDROCK : jsString := str "bedrock".
Definition DEFAULT : jsString := str "default".

(** [credentialsFile.bedrock ?? credentialsFile.default] and the three
    reads that follow it. *)
Definition selectCredentials (credentialsFile : Profiles)
  : result Credentials :=
  let credentials :=
    nullish (getProfile credentialsFile BEDROCK)
            (getProfile credentialsFile DEFAULT) in
  match credentials with
  | None => Throw TypeError
  | Some c =>
      Ok (mkCredentials (accessKeyId c) (secretAccessKey c)
                        (orEmpty (sessionToken c)))
  end.

(** ** Chat messages *)

(** Modelled from the spec: the declarations of [ChatMessage],
    [MessageContent] and [CompletionOptions] (imported from index.js) are not
    among the sources.  A message has a role among system, user and assistant
    and a content that is a string or a sequence of parts; a part carries its
    [type] tag, and the fields [text] and [imageUrl] that the class reads
    ([imageUrl] through [?.], so it may be [undefined]). *)
Inductive ChatMessageRole : Type := system | user | assistant.

Inductive MessagePartType : Type := text | imageUrl.

Record MessagePart : Type := mkPart {
  part_type : MessagePartType;
  part_text : option jsString;
  part_imageUrl_url : option jsString
}.

Inductive MessageContent : Type :=
| ContentString (s : jsString)
| ContentParts (parts : list MessagePart).

Record ChatMessage : Type := mkMessage {
  role : ChatMessageRole;
  content : MessageContent
}.

(** What [_convertMessageContent] builds for a part that is not text:
    [{type: "image", source: {type: "base64", media_type, data}}]. *)
Record ImageSource : Type := mkSource {
  source_type : jsString;
  media_type : jsString;
  data : option jsString
}.

Inductive WirePart : Type :=
| SamePart (part : MessagePart)
| ImagePart (source : ImageSource).

Inductive WireContent : Type :=
| WireString (s : jsString)
| WireParts (parts : list WirePart).

Record WireMessage : Type := mkWire {
  wire_role : ChatMessageRole;
  wire_content : WireContent
}.

Definition isSystem (r : ChatMessageRole) : bool :=
  match r with
  | system => true
  | _ => false
  end.

Definition isTextPart (p : MessagePart) : bool :=
  match part_type p with
  | text => true
  | imageUrl => false
  end.

(** [part.imageUrl?.url.split(",")[1]]. *)
Definition imageData (part : MessagePart) : option jsString :=
  match part_imageUrl_url part with
  | None => None
  | Some url => nth_error (split COMMA url) 1
  end.

Definition convertPart (part : MessagePart) : WirePart :=
  if isTextPart part then SamePart part
  else ImagePart (mkSource (str "base64") (str "image/jpeg") (imageData part)).

Definition _convertMessageContent (messageContent : MessageContent)
  : WireContent :=
  match messageContent with
  | ContentString s => WireString s
  | ContentParts parts => WireParts (map convertPart parts)
  end.

Definition _convertMessage (message : ChatMessage) : WireMessage :=
  mkWire (role message) (_convertMessageContent (content message)).

Definition _convertMessages (msgs : list ChatMessage) : list WireMessage :=
  map _convertMessage (filter (fun m => negb (isSystem (role m))) msgs).

(** ** JSON values *)

(** Numbers are IEEE 754 doubles. *)
Definition jsNumber : Type := spec_float.

(** What [JSON.parse] returns, and what a JSON text denotes; an object is
    the list of its own properties. *)
Inductive json : Type :=
| JNull
| JBool (b : bool)
| JNumber (x : jsNumber)
| JString (s : jsString)
| JArray (l : list json)
| JObject (props : list (jsString * json)).

Fixpoint jsonGet (k : jsString) (props : list (jsString * json))
  : option json :=
  match props with
  | [] => None
  | (k', v) :: r => if streq k k' then Some v else jsonGet k r
  end.

(** ** The request body *)

(** Modelled from the spec: the options bag has the fields [model],
    [maxTokens], [temperature], [topP], [topK] and [stop]; as the class reads
    them without a default, each but [model] may be [undefined], and so may
    the system message of the instance. *)
Record CompletionOptions : Type := mkOptions {
  model : jsString;
  maxTokens : option jsNumber;
  temperature : option jsNumber;
  topP : option jsNumber;
  topK : option jsNumber;
  stop : option (list jsString)
}.

(** The values found in the object handed to [JSON.stringify]. *)
Inductive BodyValue : Type :=
| BUndefined
| BString (s : jsString)
| BNumber (x : jsNumber)
| BStrings (l : list jsString)
| BMessages (l : list WireMessage).

Definition orUndefined {A} (f : A -> BodyValue) (x : option A) : BodyValue :=
  match x with
  | Some a => f a
  | None => BUndefined
  end.

(** The object literal of [_streamChat], property by property, in the order
    written. *)
Definition requestBody (systemMessage : option jsString)
    (messages : list ChatMessage) (options : CompletionOptions)
  : list (jsString * BodyValue) :=
  [ (str "anthropic_version", BString (str "bedrock-2023-05-31"));
    (str "max_tokens", orUndefined BNumber (maxTokens options));
    (str "system", orUndefined BString systemMessage);
    (str "messages", BMessages (_convertMessages messages));
    (str "temperature", orUndefined BNumber (temperature options));
    (str "top_p", orUndefined BNumber (topP options));
    (str "top_k", orUndefined BNumber (topK options));
    (str "stop_sequences", orUndefined BStrings (stop options)) ].

Fixpoint field (k : jsString) (o : list (jsString * BodyValue))
  : option BodyValue :=
  match o with
  | [] => None
  | (k', v) :: r => if streq k k' then Some v else field k r
  end.

(** *** [JSON.stringify]

    The serialisation is modelled by the JSON value that its text denotes
    (the value [JSON.parse] gives back from it): which properties are
    written and with which values. *)

(** A number: [NaN] and the infinities are written [null], negative zero is
    written [0], any other number is written so that it reads back
    unchanged. *)
Definition stringifyNumber (x : jsNumber) : json :=
  match x with
  | S754_nan => JNull
  | S754_infinity _ => JNull
  | S754_zero _ => JNumber (S754_zero false)
  | S754_finite _ _ _ => JNumber x
  end.

Definition roleName (r : ChatMessageRole) : jsString :=
  match r with
  | system => str "system"
  | user => str "user"
  | assistant => str "assistant"
  end.

Definition partTypeName (t : MessagePartType) : jsString :=
  match t with
  | text => str "text"
  | imageUrl => str "imageUrl"
  end.

(** A property is written when its value is not [undefined]. *)
Definition property (k : jsString) (v : option json)
  : list (jsString * json) :=
  match v with
  | Some j => [(k, j)]
  | None => []
  end.

(** A part passed through as it is: its fields, in the order of the
    declaration of the type. *)
Definition stringifyPart (p : WirePart) : json :=
  match p with
  | SamePart part =>
      JObject
        ((str "type", JString (partTypeName (part_type part)))
         :: property (str "text") (option_map JString (part_text part))
         ++ property (str "imageUrl")
              (option_map (fun u => JObject [(str "url", JString u)])
                          (part_imageUrl_url part)))
  | ImagePart source =>
      JObject
        [(str "type", JString (str "image"));
         (str "source",
          JObject ((str "type", JString (source_type source))
                   :: (str "media_type", JString (media_type source))
                   :: property (str "data")
                        (option_map JString (data source))))]
  end.

Definition stringifyMessage (w : WireMessage) : json :=
  JObject
    [(str "role", JString (roleName (wire_role w)));
     (str "content",
      match wire_content w with
      | WireString s => JString s
      | WireParts parts => JArray (map stringifyPart parts)
      end)].

Definition stringifyValue (v : BodyValue) : option json :=
  match v with
  | BUndefined => None
  | BString s => Some (JString s)
  | BNumber x => Some (stringifyNumber x)
  | BStrings l => Some (JArray (map JString l))
  | BMessages l => Some (JArray (map stringifyMessage l))
  end.

(** The properties written for an object: those whose value is not
    [undefined], in the order of the object. *)
Definition stringifyProperties (o : list (jsString * BodyValue))
  : list (jsString * json) :=
  flat_map (fun kv => property (fst kv) (stringifyValue (snd kv))) o.

(** [new TextEncoder().encode(JSON.stringify(o))], by the JSON value the
    bytes denote. *)
Definition JSON_stringify (o : list (jsString * BodyValue)) : json :=
  JObject (stringifyProperties o).

(** ** The response stream *)

(** [v.k] for the names [delta] and [text], which no built-in prototype
    defines: a property of an object, [undefined] on any other value but
    [null], where the read throws. *)
Definition member (k : jsString) (v : json) : result (option json) :=
  match v with
  | JNull => Throw TypeError
  | JObject props => Ok (jsonGet k props)
  | _ => Ok None
  end.

(** [v?.k]. *)
Definition optMember (k : jsString) (v : option json) : result (option json) :=
  match v with
  | None => Ok None
  | Some JNull => Ok None
  | Some x => member k x
  end.

(** [JSON.parse(textChunk).delta?.text], after the parse. *)
Definition deltaText (parsed : json) : result (option json) :=
  d <- member (str "delta") parsed ;;
  optMember (str "text") d.

(** The test [if (chunk)]. *)
Definition truthy (v : option json) : bool :=
  match v with
  | None => false
  | Some JNull => false
  | Some (JBool b) => b
  | Some (JNumber x) =>
      match x with
      | S754_zero _ => false
      | S754_nan => false
      | _ => true
      end
  | Some (JString s) => match s with [] => false | _ => true end
  | Some (JArray _) => true
  | Some (JObject _) => true
  end.

(** A yielded [{role: "assistant", content: chunk}]. *)
Record Update : Type := mkUpdate {
  update_role : ChatMessageRole;
  update_content : json
}.

(** The loop body once the frame is parsed: read [delta?.text], yield it
    when it is truthy. *)
Definition chunkUpdate (parsed : json) : result (option Update) :=
  chunk <- deltaText parsed ;;
  match chunk with
  | Some c => if truthy chunk then Ok (Some (mkUpdate assistant c))
              else Ok None
  | None => Ok None
  end.

(** One element of [response.body], by its [chunk?.bytes]. *)
Record StreamEvent : Type := mkEvent {
  chunk_bytes : option (list Byte.byte)
}.

(** What a generator has done when it stops: the values yielded, in order,
    and the exception that ended it, if one did. *)
Record Run (Y : Type) : Type := mkRun {
  yielded : list Y;
  failure : option jsError
}.

Arguments mkRun {Y} yielded failure.

Definition emit {Y} (y : Y) (r : Run Y) : Run Y :=
  mkRun (y :: yielded r) (failure r).

Section Platform.

(** [new TextDecoder().decode(bytes)] and [JSON.parse(text)], which throws
    a [SyntaxError] on a text that is not JSON ([None]). *)
Variable decode : list Byte.byte -> jsString.
Variable JSON_parse : jsString -> option json.

Definition textChunk (value : StreamEvent) : jsString :=
  match chunk_bytes value with
  | Some b => decode b
  | None => []
  end.

(** The body of the loop over [response.body]: the value to yield, if
    any. *)
Definition onFrame (value : StreamEvent) : result (option Update) :=
  match JSON_parse (textChunk value) with
  | None => Throw SyntaxError
  | Some parsed => chunkUpdate parsed
  end.

Fixpoint decodeStream (body : list StreamEvent) : Run Update :=
  match body with
  | [] => mkRun [] None
  | value :: rest =>
      match onFrame value with
      | Throw e => mkRun [] (Some e)
      | Ok None => decodeStream rest
      | Ok (Some u) => emit u (decodeStream rest)
      end
  end.

(** [response.body]: the events the stream delivers and, when it then
    fails instead of ending, the exception it rejects with. *)
Record ResponseBody : Type := mkBody {
  delivered : list StreamEvent;
  rejection : option jsError
}.

(** The loop [for await (const value of response.body)]: the events are
    handled in order; when the stream rejects after them, the loop throws
    that exception, unless a frame has thrown before. *)
Definition consume (body : ResponseBody) : Run Update :=
  let handled := decodeStream (delivered body) in
  match failure handled with
  | Some _ => handled
  | None => mkRun (yielded handled) (rejection body)
  end.

(** The command sent, with the body it carries, and the transport:
    [client.send] may throw, and its response may have no body. *)
Record Command : Type := mkCommand {
  command_body : json;
  contentType : jsString;
  modelId : jsString
}.

Variable send : Credentials -> Command -> result (option ResponseBody).

(** [_streamChat], from the text of the credentials file on. *)
Definition _streamChat (fileData : jsString) (systemMessage : option jsString)
    (messages : list ChatMessage) (options : CompletionOptions)
  : Run Update :=
  match credentialsFile <- _parseCredentialsFile fileData ;;
        selectCredentials credentialsFile with
  | Throw e => mkRun [] (Some e)
  | Ok credentials =>
      let command :=
        mkCommand (JSON_stringify (requestBody systemMessage messages options))
                  (str "application/json") (model options) in
      match send credentials command with
      | Throw e => mkRun [] (Some e)
      | Ok None => mkRun [] None
      | Ok (Some body) => consume body
      end
  end.

End Platform.

(** * Vocabulary of the statements *)

(** The text before the first [c], and the text after it. *)
Fixpoint upTo (c : N) (s : jsString) : jsString :=
  match s with
  | [] => []
  | d :: r => if (d =? c)%N then [] else d :: upTo c r
  end.

Fixpoint afterFirst (c : N) (s : jsString) : option jsString :=
  match s with
  | [] => None
  | d :: r => if (d =? c)%N then Some r else afterFirst c r
  end.


(** *** Structure of a credentials file *)

Definition fileLines (fileContents : jsString) : list jsString :=
  split LF (trim fileContents).

(** The name a line opens a section with, when it is a header [[name]]. *)
Definition headerName (line : jsString) : option jsString :=
  let t := trim line in
  if startsWith LBRACKET t && endsWith RBRACKET t then Some (slice_1_m1 t)
  else None.

Definition isHeader (line : jsString) : bool :=
  match headerName line with
  | Some _ => true
  | None => false
  end.

(** The key and the value the parser reads in a line with an [=]: the text
    before the first [=], and the text between the first [=] and the
    second. *)
Definition assignment (line : jsString) : option (jsString * jsString) :=
  let t := trim line in
  match afterFirst EQUALS t with
  | Some rest => Some (trim (upTo EQUALS t), trim (upTo EQUALS rest))
  | None => None
  end.

(** The key and the value of the specification: the line split at its first
    [=] only. *)
Definition firstEqualsAssignment (line : jsString)
  : option (jsString * jsString) :=
  let t := trim line in
  match afterFirst EQUALS t with
  | Some rest => Some (trim (upTo EQUALS t), trim rest)
  | None => None
  end.

Definition isRecognized (key : jsString) : bool :=
  streq key AWS_ACCESS_KEY_ID || streq key AWS_SECRET_ACCESS_KEY
  || streq key AWS_SESSION_TOKEN.

(** The lines that follow a header, up to the next header. *)
Fixpoint sectionBody (ls : list jsString) : list jsString :=
  match ls with
  | [] => []
  | l :: r => if isHeader l then [] else l :: sectionBody r
  end.

(** The sections of a file in order: each header with its body.  Lines
    before the first header belong to no section. *)
Fixpoint sections (ls : list jsString) : list (jsString * list jsString) :=
  match ls with
  | [] => []
  | l :: r =>
      match headerName l with
      | Some name => (name, sectionBody r) :: sections r
      | None => sections r
      end
  end.

Definition sectionNames (fileContents : jsString) : list jsString :=
  map fst (sections (fileLines fileContents)).

Fixpoint lastOf {A} (l : list A) : option A :=
  match l with
  | [] => None
  | [x] => Some x
  | _ :: r => lastOf r
  end.

(** The body of the last section of a name. *)
Definition lastSectionNamed (name : jsString)
    (secs : list (jsString * list jsString)) : option (list jsString) :=
  option_map snd (lastOf (filter (fun s => streq (fst s) name) secs)).


(** The values assigned to a key by the lines of a body, in order. *)
Definition assignedValues (key : jsString) (body : list jsString)
  : list jsString :=
  flat_map (fun l => match assignment l with
                     | Some (k, v) => if streq k key then [v] else []
                     | None => []
                     end) body.

Definition lastAssigned (key : jsString) (body : list jsString)
  : option jsString :=
  lastOf (assignedValues key body).

(** The profile a section body describes. *)
Definition profileOf (body : list jsString) : Profile :=
  mkProfile (lastAssigned AWS_ACCESS_KEY_ID body)
            (lastAssigned AWS_SECRET_ACCESS_KEY body)
            (lastAssigned AWS_SESSION_TOKEN body).

Definition hasKey (k : jsString) (l : list jsString) : bool :=
  existsb (streq k) l.

(** The distinct elements of a list, in order of first appearance. *)
Fixpoint firstAppearance (l : list jsString) : list jsString :=
  match l with
  | [] => []
  | x :: r => x :: filter (fun y => negb (streq y x)) (firstAppearance r)
  end.

Definition notProto (name : jsString) : bool := negb (streq name PROTO).

(** What a line does to the state: a header opens a fresh profile, a line
    that assigns a recognized key inside a section updates the current
    profile, any other line does nothing. *)
Definition fieldSetter (key value : jsString) : option (Profile -> Profile) :=
  if streq key AWS_ACCESS_KEY_ID then Some (set_accessKeyId value)
  else if streq key AWS_SECRET_ACCESS_KEY then Some (set_secretAccessKey value)
  else if streq key AWS_SESSION_TOKEN then Some (set_sessionToken value)
  else None.

(** A line that is not a header joins the body of the last section. *)
Fixpoint addLine (l : jsString) (secs : list (jsString * list jsString))
  : list (jsString * list jsString) :=
  match secs with
  | [] => []
  | (n, b) :: r =>
      match r with
      | [] => [(n, b ++ [l])]
      | _ :: _ => (n, b) :: addLine l r
      end
  end.

(** What relates the state of the loop to the sections read so far. *)
Definition Inv (secs : list (jsString * list jsString)) (st : ParserState)
  : Prop :=
  snd st = option_map fst (lastOf secs)
  /\ map fst (own (fst st)) = firstAppearance (filter notProto (map fst secs))
  /\ forall n, getProfile (fst st) n
               = option_map profileOf (lastSectionNamed n secs).

(** A body that assigns none of the recognized keys. *)
Definition assignsNothing (body : list jsString) : bool :=
  forallb (fun l => match assignment l with
                    | Some (k, _) => negb (isRecognized k)
                    | None => true
                    end) body.


(** What selection returns for a profile. *)
Definition credentialsOf (p : Profile) : Credentials :=
  mkCredentials (accessKeyId p) (secretAccessKey p) (orEmpty (sessionToken p)).

(** * Sample inputs *)

(** Text of a file from its lines. *)
Fixpoint unlines (ls : list jsString) : jsString :=
  match ls with
  | [] => []
  | [l] => l
  | l :: r => l ++ LF :: unlines r
  end.


(** A file with neither a [bedrock] nor a [default] section. *)
Definition otherFile : jsString :=
  unlines [str "[other]"; str "aws_access_key_id=AK"].

(** A file with both sections, [default] first. *)
Definition bothFile : jsString :=
  unlines [str "[default]"; str "aws_access_key_id = D1";
           str "aws_secret_access_key = D2"; str "[bedrock]";
           str "aws_access_key_id = B1"; str "aws_secret_access_key = B2"].

(** A file whose [bedrock] section assigns nothing. *)
Definition emptyBedrockFile : jsString :=
  unlines [str "[default]"; str "aws_access_key_id = D1";
           str "aws_secret_access_key = D2"; str "[bedrock]";
           str "region = us-east-1"].

(** A file whose section names include array indices and [__proto__]. *)
Definition indexedFile : jsString :=
  unlines [str "[b]"; str "[2]"; str "[__proto__]"; str "[1]"; str "[b]"].

(** A session token with base64 padding. *)
Definition paddedTokenFile : jsString :=
  unlines [str "[default]"; str "aws_session_token=abc=="].

(** *** Messages *)

Definition role_eq_dec (a b : ChatMessageRole) : {a = b} + {a <> b}.
Proof. decide equality. Defined.

(** The number of system-role messages. *)
Definition systemCount (msgs : list ChatMessage) : nat :=
  count_occ role_eq_dec (map role msgs) system.

(** [l] is [l'] with some elements left out, the others in the same
    order. *)
Inductive Subsequence {A : Type} : list A -> list A -> Prop :=
| sub_nil : Subsequence [] []
| sub_skip (x : A) (l l' : list A) : Subsequence l l' -> Subsequence l (x :: l')
| sub_keep (x : A) (l l' : list A) :
    Subsequence l l' -> Subsequence (x :: l) (x :: l').

(** A translated message has the role of its source and the translation of
    its content. *)
Definition translates (m : ChatMessage) (w : WireMessage) : Prop :=
  wire_role w = role m /\ wire_content w = _convertMessageContent (content m).

(** The payload the code reads in a URL: the text between the first comma
    and the second. *)
Definition payloadOf (url : jsString) : option jsString :=
  option_map (upTo COMMA) (afterFirst COMMA url).

Definition jpegSource (d : option jsString) : ImageSource :=
  mkSource (str "base64") (str "image/jpeg") d.

Definition sampleTextPart : MessagePart :=
  mkPart text (Some (str "describe")) None.

Definition sampleImagePart : MessagePart :=
  mkPart imageUrl None (Some (str "data:image/jpeg;base64,QUJD")).

(** An image whose source has a second comma. *)
Definition twoCommaPart : MessagePart :=
  mkPart imageUrl None (Some (str "data:image/jpeg;base64,AA,BB")).

(** *** Frames *)

Definition DELTA : jsString := str "delta".
Definition TEXT : jsString := str "text".

(** The value of the nested field [delta.text] of a parsed frame, when the
    frame is an object whose [delta] is an object with a [text]. *)
Definition nestedDeltaText (parsed : json) : option json :=
  match parsed with
  | JObject props =>
      match jsonGet DELTA props with
      | Some (JObject dprops) => jsonGet TEXT dprops
      | _ => None
      end
  | _ => None
  end.

(** [{"delta":{"text":t}}], parsed. *)
Definition deltaFrame (t : json) : json :=
  JObject [(DELTA, JObject [(TEXT, t)])].

Definition frameHel : json := deltaFrame (JString (str "Hel")).
Definition frameLo : json := deltaFrame (JString (str "lo")).
Definition frameOther : json :=
  JObject [(str "other", JNumber (S754_finite false 4503599627370496 (-52)))].
Definition frameEmptyText : json := deltaFrame (JString []).

(** The texts of these frames, and a platform for them: ASCII bytes decode
    to their code units, and the four texts parse to the four values. *)
Definition quoted (s : jsString) : jsString := (34 :: s ++ [34])%N.

Definition deltaFrameText (t : jsString) : jsString :=
  str "{" ++ quoted DELTA ++ str ":{" ++ quoted TEXT ++ str ":" ++ quoted t
  ++ str "}}".

Definition otherFrameText : jsString := str "{" ++ quoted (str "other") ++ str ":1}".

Definition asciiDecode (bytes : list Byte.byte) : jsString :=
  map Byte.to_N bytes.

Definition asciiEncode (s : jsString) : list Byte.byte :=
  map (fun c => match Byte.of_N c with
                | Some b => b
                | None => Byte.x00
                end) s.

Definition sampleParse (s : jsString) : option json :=
  if streq s (deltaFrameText (str "Hel")) then Some frameHel
  else if streq s (deltaFrameText (str "lo")) then Some frameLo
  else if streq s otherFrameText then Some frameOther
  else if streq s (deltaFrameText []) then Some frameEmptyText
  else None.

Definition frameOf (s : jsString) : StreamEvent := mkEvent (Some (asciiEncode s)).

Definition assistantText (s : jsString) : Update :=
  mkUpdate assistant (JString s).

(** * The completion operation *)

(** The [for await] loop of a generator that yields [f x] for each value [x]
    of another generator: it stops at the first [f x] that throws, and
    otherwise ends as the inner generator did. *)
Fixpoint yieldEach {X Y} (f : X -> result Y) (xs : list X)
    (ending : option jsError) : Run Y :=
  match xs with
  | [] => mkRun [] ending
  | x :: r =>
      match f x with
      | Throw e => mkRun [] (Some e)
      | Ok y => emit y (yieldEach f r ending)
      end
  end.

Section Completion.

Variable decode : list Byte.byte -> jsString.
Variable JSON_parse : jsString -> option json.
Variable send : Credentials -> Command -> result (option ResponseBody).

(** [stripImages] (imported from countTokens.js) is not among the sources:
    it is a parameter, and may throw. *)
Variable stripImages : json -> result jsString.

(** [_streamComplete]: the prompt as one user message, through
    [_streamChat]. *)
Definition _streamComplete (fileData : jsString)
    (systemMessage : option jsString) (prompt : jsString)
    (options : CompletionOptions) : Run jsString :=
  let messages := [mkMessage user (ContentString prompt)] in
  let chat :=
    _streamChat decode JSON_parse send fileData systemMessage messages
                options in
  yieldEach (fun update => stripImages (update_content update))
            (yielded chat) (failure chat).

End Completion.

(** * Vocabulary of the further statements *)

(** One generator run after another: the second is not started when the
    first has thrown. *)
Definition thenRun {Y} (r1 r2 : Run Y) : Run Y :=
  match failure r1 with
  | Some _ => r1
  | None => mkRun (yielded r1 ++ yielded r2) (failure r2)
  end.

(** The credentials [_streamChat] starts with, from the text of the file. *)
Definition resolveCredentials (fileData : jsString) : result Credentials :=
  credentialsFile <- _parseCredentialsFile fileData ;;
  selectCredentials credentialsFile.

(** A line that can change the state of the parser: a header, or an
    assignment to a recognized key. *)
Definition isSignificant (line : jsString) : bool :=
  match headerName line with
  | Some _ => true
  | None =>
      match assignment line with
      | Some (k, _) => isRecognized k
      | None => false
      end
  end.

Definition significantLines (fileContents : jsString) : list jsString :=
  map trim (filter isSignificant (fileLines fileContents)).

(** A string that starts, and one that ends, with a code unit that [trim]
    keeps. *)
Definition firstKept (s : jsString) : bool :=
  match s with
  | [] => false
  | c :: _ => negb (isWhiteSpace c)
  end.

Definition lastKept (s : jsString) : bool := firstKept (rev s).

(** The fields of a profile. *)
Definition fieldsOf (p : Profile) : list (option jsString) :=
  [accessKeyId p; secretAccessKey p; sessionToken p].

(** *** Writing a store as a file *)








(** *** More sample inputs *)

Definition CR : N := 13.

(** [bothFile] with carriage returns, blank lines, a comment and a region. *)
Definition noisyFile : jsString :=
  unlines [str "# credentials" ++ [CR]; [CR]; str "[default]" ++ [CR];
           str "  aws_access_key_id = D1" ++ [CR];
           str "aws_secret_access_key = D2" ++ [CR]; [CR];
           str "[bedrock]" ++ [CR]; str "region = us-east-1" ++ [CR];
           str "aws_access_key_id = B1" ++ [CR];
           str "aws_secret_access_key = B2" ++ [CR]].

(** [bothFile] after keys that no section holds. *)
Definition headedFile : jsString :=
  unlines [str "aws_access_key_id = X1"; str "aws_session_token = X2"]
  ++ LF :: bothFile.


(** A file with a [default] section only. *)
Definition defaultOnlyFile : jsString :=
  unlines [str "[default]"; str "aws_access_key_id = D1";
           str "aws_secret_access_key = D2"].

Definition noCommaPart : MessagePart :=
  mkPart imageUrl None (Some (str "https://example.com/cat.jpg")).

(** A transport that accepts any command and answers with the three frames
    of the example. *)
Definition sampleSend (credentials : Credentials) (command : Command)
  : result (option ResponseBody) :=
  Ok (Some (mkBody [frameOf (deltaFrameText (str "Hel"));
                    frameOf (deltaFrameText (str "lo"));
                    frameOf otherFrameText] None)).

(** A transport whose stream delivers the frame [Hel] and then fails. *)
Definition brokenSend (credentials : Credentials) (command : Command)
  : result (option ResponseBody) :=
  Ok (Some (mkBody [frameOf (deltaFrameText (str "Hel"))]
                   (Some TransportError))).

(** [stripImages] on the contents of the example: a string is returned as
    it is. *)
Definition sampleStrip (content : json) : result jsString :=
  match content with
  | JString s => Ok s
  | _ => Throw TypeError
  end.

Definition sampleOptions : CompletionOptions :=
  mkOptions (str "claude-3-sonnet-20240229")
            (Some (S754_finite false 4503599627370496 (-42)))
            (Some (S754_finite false 4503599627370496 (-53)))
            (Some (S754_finite false 4503599627370496 (-52)))
            (Some (S754_finite false 4503599627370496 (-47)))
            (Some [str "STOP"]).

(** Options with nothing but the model. *)
Definition unsetOptions : CompletionOptions :=
  mkOptions (str "claude-3-sonnet-20240229") None None None None None.

(** The names of the written properties that depend on a value being
    set. *)
Definition whenSet {A} (x : option A) (k : jsString) : list jsString :=
  match x with
  | Some _ => [k]
  | None => []
  end.

Definition MARKER : jsString := str "bedrock-2023-05-31".

(** The command of a chat. *)
Definition chatCommand (systemMessage : option jsString)
    (messages : list ChatMessage) (options : CompletionOptions) : Command :=
  mkCommand (JSON_stringify (requestBody systemMessage messages options))
            (str "application/json") (model options).

(** What a chat does with the answer of the transport. *)
Definition afterSend (decode : list Byte.byte -> jsString)
    (JSON_parse : jsString -> option json)
    (answer : result (option ResponseBody)) : Run Update :=
  match answer with
  | Throw e => mkRun [] (Some e)
  | Ok None => mkRun [] None
  | Ok (Some body) => consume decode JSON_parse body
  end.

(** A number that is written as it is. *)
Definition isPlainNumber (x : jsNumber) : bool :=
  match x with
  | S754_finite _ _ _ => true
  | S754_zero s => negb s
  | _ => false
  end.



(** * Properties *)

(** ** Strings *)

Lemma streq_true (a b : jsString) : streq a b = true <-> a = b.
Proof.
  unfold streq. destruct (list_eq_dec N.eq_dec a b); split; congruence.
Qed.

Lemma streq_false (a b : jsString) : streq a b = false <-> a <> b.
Proof.
  unfold streq. destruct (list_eq_dec N.eq_dec a b); split; congruence.
Qed.

Lemma streq_refl (a : jsString) : streq a a = true.
Proof. now apply streq_true. Qed.

Lemma split_unfold (c : N) (s : jsString) :
  split c s = upTo c s :: match afterFirst c s with
                          | Some r => split c r
                          | None => []
                          end.
Proof.
  induction s as [|d r IH]; simpl; [reflexivity|].
  destruct (d =? c)%N; [reflexivity|].
  rewrite IH. reflexivity.
Qed.

Lemma includes_afterFirst (c : N) (s : jsString) :
  includes c s = true <-> exists r, afterFirst c s = Some r.
Proof.
  unfold includes. induction s as [|d r IH]; simpl.
  - split; [discriminate | intros [x Hx]; discriminate].
  - destruct (d =? c)%N; simpl; [split; eauto | exact IH].
Qed.

Lemma includes_false_afterFirst (c : N) (s : jsString) :
  includes c s = false <-> afterFirst c s = None.
Proof.
  unfold includes. induction s as [|d r IH]; simpl.
  - tauto.
  - destruct (d =? c)%N; simpl; [split; discriminate | exact IH].
Qed.

Lemma upTo_no_sep (c : N) (s : jsString) :
  includes c s = false -> upTo c s = s.
Proof.
  unfold includes. induction s as [|d r IH]; simpl; [reflexivity|].
  destruct (d =? c)%N; simpl; [discriminate|].
  intros H. now rewrite IH.
Qed.

(** The first two elements of a split, as the destructuring
    [[a, b] = s.split(c)] reads them. *)
Lemma split_first (c : N) (s : jsString) :
  nth_error (split c s) 0 = Some (upTo c s).
Proof. rewrite split_unfold. reflexivity. Qed.

Lemma split_second (c : N) (s : jsString) :
  nth_error (split c s) 1 = option_map (upTo c) (afterFirst c s).
Proof.
  rewrite split_unfold. simpl.
  destruct (afterFirst c s) as [r|]; [|reflexivity].
  rewrite split_unfold. reflexivity.
Qed.

(** ** The loop body of the parser, line by line *)

Lemma parseLine_header (profiles : Profiles) (cur : option jsString)
    (line name : jsString) :
  headerName line = Some name ->
  parseLine (profiles, cur) line
  = Ok (setProfile profiles name emptyObject, Some name).
Proof.
  unfold headerName, parseLine.
  destruct (startsWith LBRACKET (trim line) && endsWith RBRACKET (trim line));
    [|discriminate].
  intros H. injection H as <-. reflexivity.
Qed.

Lemma parseLine_outside (profiles : Profiles) (line : jsString) :
  headerName line = None ->
  parseLine (profiles, None) line = Ok (profiles, None).
Proof.
  unfold headerName, parseLine.
  destruct (startsWith LBRACKET (trim line) && endsWith RBRACKET (trim line));
    [discriminate | reflexivity].
Qed.

Lemma parseLine_inside (profiles : Profiles) (cur line : jsString) :
  headerName line = None ->
  parseLine (profiles, Some cur) line
  = match assignment line with
    | Some (k, v) =>
        match fieldSetter k v with
        | Some f => p <- assignField profiles cur f ;; Ok (p, Some cur)
        | None => Ok (profiles, Some cur)
        end
    | None => Ok (profiles, Some cur)
    end.
Proof.
  unfold headerName, parseLine, assignment.
  destruct (startsWith LBRACKET (trim line) && endsWith RBRACKET (trim line));
    [discriminate|].
  intros _.
  destruct (includes EQUALS (trim line)) eqn:Hinc.
  - apply includes_afterFirst in Hinc. destruct Hinc as [rest Hrest].
    rewrite split_first, split_second, Hrest. simpl.
    unfold fieldSetter.
    destruct (streq (trim (upTo EQUALS (trim line))) AWS_ACCESS_KEY_ID);
      [reflexivity|].
    destruct (streq (trim (upTo EQUALS (trim line))) AWS_SECRET_ACCESS_KEY);
      [reflexivity|].
    destruct (streq (trim (upTo EQUALS (trim line))) AWS_SESSION_TOKEN);
      reflexivity.
  - apply includes_false_afterFirst in Hinc. rewrite Hinc. reflexivity.
Qed.

(** ** Lists *)

Lemma forOf_app {S X} (body : S -> X -> result S) (xs ys : list X) (s : S) :
  forOf body (xs ++ ys) s = (s' <- forOf body xs s ;; forOf body ys s').
Proof.
  revert s. induction xs as [|x xs IH]; intros s; simpl; [reflexivity|].
  destruct (body s x); simpl; [apply IH | reflexivity].
Qed.

Lemma lastOf_cons {A} (a : A) (l : list A) : exists x, lastOf (a :: l) = Some x.
Proof.
  revert a. induction l as [|b l IH]; intros a; [now exists a|].
  destruct (IH b) as [x Hx]. exists x. exact Hx.
Qed.

Lemma lastOf_app {A} (l l' : list A) :
  lastOf (l ++ l') = match lastOf l' with
                     | Some x => Some x
                     | None => lastOf l
                     end.
Proof.
  induction l as [|a l IH].
  - simpl. destruct (lastOf l'); reflexivity.
  - destruct l as [|b l].
    + destruct l' as [|c l']; [reflexivity|].
      destruct (lastOf_cons c l') as [x Hx].
      change (lastOf (c :: l') = match lastOf (c :: l') with
                                 | Some y => Some y
                                 | None => Some a
                                 end).
      now rewrite Hx.
    + exact IH.
Qed.

Lemma lastOf_snoc {A} (l : list A) (x : A) : lastOf (l ++ [x]) = Some x.
Proof. rewrite lastOf_app. reflexivity. Qed.

Lemma lastOf_None {A} (l : list A) : lastOf l = None -> l = [].
Proof.
  induction l as [|a l IH]; [reflexivity|]. simpl.
  destruct l; [discriminate|]. intros H. specialize (IH H). discriminate.
Qed.

Lemma lastOf_Some {A} (l : list A) (x : A) :
  lastOf l = Some x -> exists l', l = l' ++ [x].
Proof.
  induction l as [|y l' _] using rev_ind; [discriminate|].
  rewrite lastOf_snoc. intros H. injection H as ->. now exists l'.
Qed.

(** ** The sections of a file, read line by line *)

Lemma isHeader_Some (l name : jsString) :
  headerName l = Some name -> isHeader l = true.
Proof. unfold isHeader. now intros ->. Qed.

Lemma isHeader_None (l : jsString) : headerName l = None -> isHeader l = false.
Proof. unfold isHeader. now intros ->. Qed.

Lemma sectionBody_snoc_header (ls : list jsString) (l : jsString) :
  isHeader l = true -> sectionBody (ls ++ [l]) = sectionBody ls.
Proof.
  intros H. induction ls as [|a ls IH]; simpl.
  - now rewrite H.
  - destruct (isHeader a); [reflexivity | now rewrite IH].
Qed.

Lemma sections_nil_body (ls : list jsString) (l : jsString) :
  isHeader l = false -> sections ls = [] ->
  sectionBody (ls ++ [l]) = sectionBody ls ++ [l].
Proof.
  intros H. induction ls as [|a ls IH]; simpl.
  - now rewrite H.
  - unfold isHeader. destruct (headerName a); [discriminate|].
    intros E. now rewrite IH.
Qed.

Lemma sections_cons_body (ls : list jsString) (l : jsString) :
  isHeader l = false -> sections ls <> [] ->
  sectionBody (ls ++ [l]) = sectionBody ls.
Proof.
  intros H. induction ls as [|a ls IH]; simpl.
  - congruence.
  - unfold isHeader. destruct (headerName a); [reflexivity|].
    intros E. now rewrite IH.
Qed.

Lemma sections_snoc_header (ls : list jsString) (l name : jsString) :
  headerName l = Some name ->
  sections (ls ++ [l]) = sections ls ++ [(name, [])].
Proof.
  intros H. induction ls as [|a ls IH]; simpl.
  - now rewrite H.
  - rewrite IH, sectionBody_snoc_header by (eapply isHeader_Some; eauto).
    destruct (headerName a); reflexivity.
Qed.

Lemma sections_snoc_line (ls : list jsString) (l : jsString) :
  headerName l = None ->
  sections (ls ++ [l]) = addLine l (sections ls).
Proof.
  intros H. pose proof (isHeader_None _ H) as Hh.
  induction ls as [|a ls IH]; simpl.
  - now rewrite H.
  - rewrite IH. destruct (headerName a) as [n|]; [|reflexivity].
    simpl. destruct (sections ls) as [|s r] eqn:E.
    + now rewrite sections_nil_body.
    + rewrite sections_cons_body; [reflexivity | exact Hh | congruence].
Qed.

Lemma addLine_snoc (l : jsString) (secs : list (jsString * list jsString))
    (n : jsString) (b : list jsString) :
  addLine l (secs ++ [(n, b)]) = secs ++ [(n, b ++ [l])].
Proof.
  induction secs as [|[m c] secs IH]; [reflexivity|].
  simpl. rewrite IH. destruct secs; reflexivity.
Qed.

Lemma lastSectionNamed_snoc (name n : jsString) (b : list jsString)
    (secs : list (jsString * list jsString)) :
  lastSectionNamed name (secs ++ [(n, b)])
  = if streq n name then Some b else lastSectionNamed name secs.
Proof.
  unfold lastSectionNamed. rewrite filter_app, lastOf_app. simpl.
  destruct (streq n name); reflexivity.
Qed.

(** ** Assignments of a body *)

Lemma lastAssigned_snoc (key : jsString) (body : list jsString) (l : jsString) :
  lastAssigned key (body ++ [l])
  = match assignment l with
    | Some (k, v) => if streq k key then Some v else lastAssigned key body
    | None => lastAssigned key body
    end.
Proof.
  unfold lastAssigned, assignedValues. rewrite flat_map_app, lastOf_app. simpl.
  destruct (assignment l) as [[k v]|]; [|reflexivity].
  destruct (streq k key); reflexivity.
Qed.

Lemma profileOf_snoc (body : list jsString) (l : jsString) :
  profileOf (body ++ [l])
  = match assignment l with
    | Some (k, v) =>
        match fieldSetter k v with
        | Some f => f (profileOf body)
        | None => profileOf body
        end
    | None => profileOf body
    end.
Proof.
  unfold profileOf. rewrite !lastAssigned_snoc.
  destruct (assignment l) as [[k v]|]; [|reflexivity].
  unfold fieldSetter.
  destruct (streq k AWS_ACCESS_KEY_ID) eqn:E1.
  { apply streq_true in E1. subst k. reflexivity. }
  destruct (streq k AWS_SECRET_ACCESS_KEY) eqn:E2.
  { apply streq_true in E2. subst k. reflexivity. }
  destruct (streq k AWS_SESSION_TOKEN) eqn:E3.
  { apply streq_true in E3. subst k. reflexivity. }
  reflexivity.
Qed.

(** ** Reading and writing the object [profiles] *)

Lemma assocGet_assocSet (k n : jsString) (v : Profile)
    (l : list (jsString * Profile)) :
  assocGet n (assocSet k v l) = if streq n k then Some v else assocGet n l.
Proof.
  induction l as [|[k' v'] l IH]; simpl.
  - destruct (streq n k); reflexivity.
  - destruct (streq k k') eqn:E; simpl.
    + apply streq_true in E. subst k'. destruct (streq n k); reflexivity.
    + rewrite IH. destruct (streq n k') eqn:E'; [|reflexivity].
      apply streq_true in E'. subst k'.
      destruct (streq n k) eqn:E''; [|reflexivity].
      apply streq_true in E''. subst k. rewrite streq_refl in E. discriminate.
Qed.

Lemma getProfile_setProfile (o : Profiles) (k n : jsString) (v : Profile) :
  getProfile (setProfile o k v) n = if streq n k then Some v else getProfile o n.
Proof.
  unfold getProfile, setProfile.
  destruct (streq k PROTO) eqn:Ek; simpl.
  - apply streq_true in Ek. subst k. destruct (streq n PROTO); reflexivity.
  - destruct (streq n PROTO) eqn:En.
    + apply streq_true in En. subst n.
      destruct (streq PROTO k) eqn:E; [|reflexivity].
      apply streq_true in E. subst k. rewrite streq_refl in Ek. discriminate.
    + apply assocGet_assocSet.
Qed.

Lemma keys_assocSet (k : jsString) (v : Profile) (l : list (jsString * Profile)) :
  map fst (assocSet k v l)
  = if hasKey k (map fst l) then map fst l else map fst l ++ [k].
Proof.
  unfold hasKey. induction l as [|[k' v'] l IH]; simpl; [reflexivity|].
  destruct (streq k k') eqn:E; simpl.
  - apply streq_true in E. now subst k'.
  - rewrite IH. destruct (existsb (streq k) (map fst l)); reflexivity.
Qed.

Lemma keys_assocSet_present (k : jsString) (v p : Profile)
    (l : list (jsString * Profile)) :
  assocGet k l = Some p -> map fst (assocSet k v l) = map fst l.
Proof.
  induction l as [|[k' v'] l IH]; simpl; [discriminate|].
  destruct (streq k k') eqn:E; simpl.
  - apply streq_true in E. now subst k'.
  - intros H. now rewrite IH.
Qed.

Lemma hasKey_filter (k : jsString) (f : jsString -> bool) (l : list jsString) :
  f k = true -> hasKey k (filter f l) = hasKey k l.
Proof.
  intros Hk. unfold hasKey. induction l as [|a l IH]; simpl; [reflexivity|].
  destruct (f a) eqn:Ea; simpl.
  - now rewrite IH.
  - rewrite IH. destruct (streq k a) eqn:E; [|reflexivity].
    apply streq_true in E. subst a. congruence.
Qed.

Lemma hasKey_firstAppearance (k : jsString) (l : list jsString) :
  hasKey k (firstAppearance l) = hasKey k l.
Proof.
  induction l as [|a l IH]; simpl; [reflexivity|].
  destruct (streq k a) eqn:E; simpl; [reflexivity|].
  fold (hasKey k (filter (fun y => negb (streq y a)) (firstAppearance l))).
  rewrite hasKey_filter by now rewrite E.
  exact IH.
Qed.

Lemma firstAppearance_snoc (l : list jsString) (x : jsString) :
  firstAppearance (l ++ [x])
  = if hasKey x l then firstAppearance l else firstAppearance l ++ [x].
Proof.
  induction l as [|a l IH]; simpl; [reflexivity|].
  rewrite IH. destruct (streq x a) eqn:E; simpl.
  - apply streq_true in E. subst a.
    destruct (hasKey x l); [reflexivity|].
    rewrite filter_app. simpl. rewrite streq_refl. simpl.
    now rewrite app_nil_r.
  - destruct (hasKey x l); [reflexivity|].
    rewrite filter_app. simpl. rewrite E. reflexivity.
Qed.

(** ** The invariant of the loop *)

Lemma streq_sym (a b : jsString) : streq a b = streq b a.
Proof.
  destruct (streq b a) eqn:E.
  - apply streq_true in E. subst. apply streq_refl.
  - apply streq_false. apply streq_false in E. congruence.
Qed.

Lemma map_fst_addLine (l : jsString) (secs : list (jsString * list jsString)) :
  map fst (addLine l secs) = map fst secs.
Proof.
  induction secs as [|[n b] secs IH]; [reflexivity|].
  simpl. destruct secs; [reflexivity|].
  simpl in *. now rewrite IH.
Qed.

Lemma Inv_init : Inv [] (newProfiles, None).
Proof.
  repeat split. intros n. unfold getProfile. simpl.
  destruct (streq n PROTO); reflexivity.
Qed.

Lemma Inv_header (secs : list (jsString * list jsString)) (o : Profiles)
    (cur : option jsString) (name : jsString) :
  Inv secs (o, cur) ->
  Inv (secs ++ [(name, [])]) (setProfile o name emptyObject, Some name).
Proof.
  intros (_ & Hkeys & Hget). simpl in *. repeat split; simpl.
  - now rewrite lastOf_snoc.
  - rewrite map_app, filter_app. simpl. unfold notProto at 2, setProfile.
    destruct (streq name PROTO); simpl.
    + now rewrite app_nil_r.
    + rewrite keys_assocSet, firstAppearance_snoc, Hkeys.
      now rewrite hasKey_firstAppearance.
  - intros n. rewrite getProfile_setProfile, lastSectionNamed_snoc, Hget.
    rewrite (streq_sym name n). destruct (streq n name); reflexivity.
Qed.

Lemma Inv_line (secs : list (jsString * list jsString)) (st : ParserState)
    (l : jsString) :
  Inv secs st -> headerName l = None ->
  exists st', parseLine st l = Ok st' /\ Inv (addLine l secs) st'.
Proof.
  destruct st as [o cur]. intros (Hcur & Hkeys & Hget) Hl.
  simpl in Hcur, Hkeys, Hget.
  destruct (lastOf secs) as [[c b]|] eqn:Hlast.
  - apply lastOf_Some in Hlast. destruct Hlast as [ss ->].
    simpl in Hcur. subst cur. rewrite addLine_snoc.
    assert (Hc : getProfile o c = Some (profileOf b)).
    { rewrite Hget, lastSectionNamed_snoc, streq_refl. reflexivity. }
    assert (Hnames : map fst (ss ++ [(c, b ++ [l])]) = map fst (ss ++ [(c, b)])).
    { now rewrite !map_app. }
    rewrite parseLine_inside by exact Hl.
    pose proof (profileOf_snoc b l) as Hsnoc.
    destruct (assignment l) as [[k v]|].
    2:{ exists (o, Some c). split; [reflexivity|]. repeat split; simpl.
        - now rewrite lastOf_snoc.
        - now rewrite Hnames.
        - intros n. rewrite Hget, !lastSectionNamed_snoc.
          destruct (streq c n); [simpl; now rewrite Hsnoc | reflexivity]. }
    destruct (fieldSetter k v) as [f|].
    2:{ exists (o, Some c). split; [reflexivity|]. repeat split; simpl.
        - now rewrite lastOf_snoc.
        - now rewrite Hnames.
        - intros n. rewrite Hget, !lastSectionNamed_snoc.
          destruct (streq c n); [simpl; now rewrite Hsnoc | reflexivity]. }
    unfold assignField. rewrite Hc. simpl.
    exists (setProfile o c (f (profileOf b)), Some c).
    split; [reflexivity|]. repeat split; simpl.
    + now rewrite lastOf_snoc.
    + rewrite Hnames, <- Hkeys. unfold setProfile.
      destruct (streq c PROTO) eqn:Ec; simpl; [reflexivity|].
      unfold getProfile in Hc. rewrite Ec in Hc.
      eapply keys_assocSet_present; eauto.
    + intros n. rewrite getProfile_setProfile, Hget, !lastSectionNamed_snoc.
      rewrite (streq_sym c n).
      destruct (streq n c); [simpl; now rewrite Hsnoc | reflexivity].
  - apply lastOf_None in Hlast. subst secs. simpl in Hcur. subst cur.
    rewrite parseLine_outside by exact Hl.
    exists (o, None). split; [reflexivity|]. repeat split; simpl; assumption.
Qed.

(** The loop never throws, and its state describes the sections read. *)
Lemma forOf_parseLine (ls : list jsString) :
  exists st, forOf parseLine ls (newProfiles, None) = Ok st
             /\ Inv (sections ls) st.
Proof.
  induction ls as [|l ls IH] using rev_ind.
  - exists (newProfiles, None). split; [reflexivity | apply Inv_init].
  - destruct IH as ([o cur] & Hrun & Hinv).
    rewrite forOf_app, Hrun. cbn [bind forOf].
    destruct (headerName l) as [name|] eqn:Hl.
    + rewrite (parseLine_header _ _ _ Hl). cbn [bind].
      eexists. split; [reflexivity|].
      rewrite (sections_snoc_header _ _ Hl). now apply Inv_header with (cur := cur).
    + destruct (Inv_line l Hinv Hl) as (st' & Hstep & Hinv').
      rewrite Hstep. cbn [bind]. exists st'. split; [reflexivity|].
      now rewrite (sections_snoc_line _ _ Hl).
Qed.

Lemma parse_sections (fileContents : jsString) :
  exists profiles,
    _parseCredentialsFile fileContents = Ok profiles
    /\ map fst (own profiles)
       = firstAppearance (filter notProto (sectionNames fileContents))
    /\ forall n, getProfile profiles n
                 = option_map profileOf
                     (lastSectionNamed n (sections (fileLines fileContents))).
Proof.
  destruct (forOf_parseLine (fileLines fileContents))
    as ([o cur] & Hrun & _ & Hkeys & Hget).
  exists o. unfold _parseCredentialsFile. fold (fileLines fileContents).
  rewrite Hrun. simpl. repeat split; assumption.
Qed.

Lemma lastSectionNamed_In (n : jsString)
    (secs : list (jsString * list jsString)) :
  In n (map fst secs) -> exists body, lastSectionNamed n secs = Some body.
Proof.
  induction secs as [|[m b] secs IH] using rev_ind; [intros []|].
  rewrite map_app, in_app_iff, lastSectionNamed_snoc. simpl.
  destruct (streq m n) eqn:E; [now exists b|].
  apply streq_false in E. intros [H|[H|[]]]; [now apply IH | congruence].
Qed.

Lemma lastSectionNamed_not_In (n : jsString)
    (secs : list (jsString * list jsString)) :
  ~ In n (map fst secs) -> lastSectionNamed n secs = None.
Proof.
  induction secs as [|[m b] secs IH] using rev_ind; [reflexivity|].
  rewrite map_app, in_app_iff, lastSectionNamed_snoc. simpl.
  destruct (streq m n) eqn:E.
  - apply streq_true in E. tauto.
  - intros H. apply IH. tauto.
Qed.

Lemma assignsNothing_lastAssigned (key : jsString) (body : list jsString) :
  isRecognized key = true -> assignsNothing body = true ->
  lastAssigned key body = None.
Proof.
  intros Hkey. unfold assignsNothing, lastAssigned, assignedValues.
  induction body as [|l body IH]; simpl; [reflexivity|].
  intros H. apply andb_true_iff in H. destruct H as [Hl Hbody].
  destruct (assignment l) as [[k v]|]; [|now apply IH].
  destruct (streq k key) eqn:E; [|now apply IH].
  apply streq_true in E. subst k. rewrite Hkey in Hl. discriminate.
Qed.

Lemma assignsNothing_profileOf (body : list jsString) :
  assignsNothing body = true -> profileOf body = emptyObject.
Proof.
  intros H. unfold profileOf.
  rewrite !assignsNothing_lastAssigned by (exact H || reflexivity).
  reflexivity.
Qed.

(** ** Key order *)







(** * The credentials file *)

(** C10.  The parse is total: on every input string the loop ends without
    throwing and a mapping is returned; every line containing [=] splits
    into at least a key and a value, so both [trim] calls of the loop body
    are on defined strings. *)
Theorem parse_total :
  (forall fileContents : jsString,
      exists profiles, _parseCredentialsFile fileContents = Ok profiles)
  /\ (forall left right : jsString,
         let line := left ++ EQUALS :: right in
         includes EQUALS line = true
         /\ exists key value rest,
             split EQUALS line = key :: value :: rest
             /\ callTrim (nth_error (split EQUALS line) 0) = Ok (trim key)
             /\ callTrim (nth_error (split EQUALS line) 1) = Ok (trim value)).
Proof.
  split.
  - intros fileContents.
    destruct (parse_sections fileContents) as (profiles & H & _).
    now exists profiles.
  - intros left right line.
    assert (Hinc : includes EQUALS line = true).
    { unfold includes, line. rewrite existsb_app. simpl.
      now rewrite orb_true_r. }
    split; [exact Hinc|].
    apply includes_afterFirst in Hinc. destruct Hinc as [r Hr].
    rewrite split_first, split_second, Hr. simpl.
    rewrite split_unfold, Hr, (split_unfold EQUALS r).
    eexists _, _, _. repeat split.
Qed.



(** Array indices are enumerated first and [__proto__] is no key. *)
Lemma keys_of_indexedFile :
  sectionNames indexedFile
  = [str "b"; str "2"; str "__proto__"; str "1"; str "b"]
  /\ exists profiles,
      _parseCredentialsFile indexedFile = Ok profiles
      /\ keys profiles = [str "1"; str "2"; str "b"].
Proof. split; [reflexivity|]. eexists. split; reflexivity. Qed.


(** C5, the code at the failing input: the value [abc==] of a session token
    is stored as [abc], the text between the first [=] of the line and the
    second, where the claim keeps all the text after the first [=]. *)
Lemma value_cut_at_second_equals :
  _parseCredentialsFile paddedTokenFile
  = Ok (mkProfiles
          [(DEFAULT, mkProfile None None (Some (str "abc")))] None)
  /\ firstEqualsAssignment (str "aws_session_token=abc==")
     = Some (AWS_SESSION_TOKEN, str "abc==")
  /\ assignment (str "aws_session_token=abc==")
     = Some (AWS_SESSION_TOKEN, str "abc").
Proof. repeat split. Qed.

Lemma assignment_single_equals (line rest : jsString) :
  afterFirst EQUALS (trim line) = Some rest ->
  includes EQUALS rest = false ->
  assignment line = firstEqualsAssignment line.
Proof.
  intros H Hrest. unfold assignment, firstEqualsAssignment.
  rewrite H, (upTo_no_sep _ _ Hrest). reflexivity.
Qed.

(** * Selection of the credentials *)

Lemma getProfile_absent (fileContents : jsString) (profiles : Profiles)
    (name : jsString) :
  _parseCredentialsFile fileContents = Ok profiles ->
  ~ In name (sectionNames fileContents) ->
  getProfile profiles name = None.
Proof.
  intros Hrun Hnot.
  destruct (parse_sections fileContents) as (o & Ho & _ & Hget).
  rewrite Hrun in Ho. injection Ho as <-.
  rewrite Hget, lastSectionNamed_not_In by exact Hnot. reflexivity.
Qed.

Lemma getProfile_present (fileContents : jsString) (profiles : Profiles)
    (name : jsString) :
  _parseCredentialsFile fileContents = Ok profiles ->
  In name (sectionNames fileContents) ->
  exists body,
    lastSectionNamed name (sections (fileLines fileContents)) = Some body
    /\ getProfile profiles name = Some (profileOf body).
Proof.
  intros Hrun Hin.
  destruct (parse_sections fileContents) as (o & Ho & _ & Hget).
  rewrite Hrun in Ho. injection Ho as <-.
  destruct (lastSectionNamed_In _ _ Hin) as [body Hbody].
  exists body. split; [exact Hbody|]. now rewrite Hget, Hbody.
Qed.

Lemma selectCredentials_bedrock (profiles : Profiles) (p : Profile) :
  getProfile profiles BEDROCK = Some p ->
  selectCredentials profiles = Ok (credentialsOf p).
Proof. unfold selectCredentials. now intros ->. Qed.

Lemma selectCredentials_default (profiles : Profiles) :
  getProfile profiles BEDROCK = None ->
  selectCredentials profiles
  = match getProfile profiles DEFAULT with
    | Some p => Ok (credentialsOf p)
    | None => Throw TypeError
    end.
Proof. unfold selectCredentials. now intros ->. Qed.

(** C1, as the code has it.  When the file has neither a [bedrock] nor a
    [default] section, selection throws the [TypeError] of reading a field
    of [undefined], and the chat operation ends with it before anything is
    sent or yielded; when a profile is selected and has no session token,
    the session token of the credentials is the empty string. *)
Theorem selection_without_profiles :
  (forall fileContents : jsString,
      ~ In BEDROCK (sectionNames fileContents) ->
      ~ In DEFAULT (sectionNames fileContents) ->
      (exists profiles,
          _parseCredentialsFile fileContents = Ok profiles
          /\ selectCredentials profiles = Throw TypeError)
      /\ forall decode JSON_parse send systemMessage messages options,
          _streamChat decode JSON_parse send fileContents systemMessage
                      messages options
          = mkRun [] (Some TypeError))
  /\ (forall profiles : Profiles,
         getProfile profiles BEDROCK = None ->
         getProfile profiles DEFAULT = None ->
         selectCredentials profiles = Throw TypeError)
  /\ (forall (profiles : Profiles) (p : Profile),
         nullish (getProfile profiles BEDROCK) (getProfile profiles DEFAULT)
         = Some p ->
         sessionToken p = None ->
         selectCredentials profiles
         = Ok (mkCredentials (accessKeyId p) (secretAccessKey p) [])).
Proof.
  split; [|split].
  - intros fileContents Hb Hd.
    destruct (parse_sections fileContents) as (profiles & Hrun & _).
    assert (Hsel : selectCredentials profiles = Throw TypeError).
    { rewrite selectCredentials_default
        by (eapply getProfile_absent; eauto).
      now rewrite (@getProfile_absent _ _ _ Hrun Hd). }
    split; [now exists profiles|].
    intros. unfold _streamChat. rewrite Hrun. cbn [bind].
    now rewrite Hsel.
  - intros profiles Hb Hd. rewrite (selectCredentials_default _ Hb).
    now rewrite Hd.
  - intros profiles p Hsel Htok. unfold selectCredentials.
    rewrite Hsel, Htok. reflexivity.
Qed.

(** The file [otherFile] has no section of either name, and a store whose
    [default] profile lacks a session token yields the empty token. *)
Lemma selection_without_profiles_witness :
  (exists profiles,
      _parseCredentialsFile otherFile = Ok profiles
      /\ selectCredentials profiles = Throw TypeError)
  /\ selectCredentials
       (mkProfiles
          [(DEFAULT, mkProfile (Some (str "AK")) (Some (str "SK")) None)] None)
     = Ok (mkCredentials (Some (str "AK")) (Some (str "SK")) []).
Proof.
  destruct selection_without_profiles as (Hmissing & _ & Htoken). split.
  - destruct (Hmissing otherFile) as [H _];
      [vm_compute; intros [H|[]]; discriminate H ..| exact H].
  - apply (Htoken _ (mkProfile (Some (str "AK")) (Some (str "SK")) None));
      reflexivity.
Defined.

(** C1, counterexample to the claim as stated: with neither profile in the
    file, the failure of selection is a [TypeError], not the distinct
    [MissingCredentials]. *)
Lemma missing_profiles_raise_TypeError :
  ~ In BEDROCK (sectionNames otherFile)
  /\ ~ In DEFAULT (sectionNames otherFile)
  /\ exists profiles,
      _parseCredentialsFile otherFile = Ok profiles
      /\ selectCredentials profiles = Throw TypeError
      /\ selectCredentials profiles <> Throw MissingCredentials.
Proof.
  split; [vm_compute; intros [H|[]]; discriminate H|].
  split; [vm_compute; intros [H|[]]; discriminate H|].
  exists (mkProfiles
            [(str "other", mkProfile (Some (str "AK")) None None)] None).
  repeat split. discriminate.
Qed.

(** C7.  In a store that has both a [bedrock] and a [default] profile,
    selection yields the fields of the [bedrock] profile, whatever the
    [default] profile holds. *)
Theorem bedrock_preferred (profiles : Profiles) (pb pd : Profile) :
  getProfile profiles BEDROCK = Some pb ->
  getProfile profiles DEFAULT = Some pd ->
  selectCredentials profiles
  = Ok (mkCredentials (accessKeyId pb) (secretAccessKey pb)
                      (orEmpty (sessionToken pb))).
Proof.
  intros Hb _. now rewrite (selectCredentials_bedrock _ Hb).
Qed.

(** In the parse of [bothFile], where [default] comes first, the keys of
    [bedrock] are selected. *)
Lemma bedrock_preferred_witness :
  exists profiles,
    _parseCredentialsFile bothFile = Ok profiles
    /\ selectCredentials profiles
       = Ok (mkCredentials (Some (str "B1")) (Some (str "B2")) []).
Proof.
  eexists. split; [vm_compute; reflexivity|].
  apply (@bedrock_preferred _
           (mkProfile (Some (str "B1")) (Some (str "B2")) None)
           (mkProfile (Some (str "D1")) (Some (str "D2")) None));
    reflexivity.
Defined.

(** C9.  When the file has a [bedrock] section, selection yields the profile
    of its last [bedrock] section, also when that section assigns none of
    the recognized keys and the profile is the empty object; the [default]
    profile is consulted only when the file has no [bedrock] section. *)
Theorem bedrock_section_selected (fileContents : jsString) :
  exists profiles,
    _parseCredentialsFile fileContents = Ok profiles
    /\ (In BEDROCK (sectionNames fileContents) ->
        exists body,
          lastSectionNamed BEDROCK (sections (fileLines fileContents))
          = Some body
          /\ getProfile profiles BEDROCK = Some (profileOf body)
          /\ selectCredentials profiles = Ok (credentialsOf (profileOf body))
          /\ (assignsNothing body = true ->
              getProfile profiles BEDROCK = Some emptyObject
              /\ selectCredentials profiles
                 = Ok (mkCredentials None None [])))
    /\ (~ In BEDROCK (sectionNames fileContents) ->
        getProfile profiles BEDROCK = None
        /\ selectCredentials profiles
           = match getProfile profiles DEFAULT with
             | Some p => Ok (credentialsOf p)
             | None => Throw TypeError
             end).
Proof.
  destruct (parse_sections fileContents) as (profiles & Hrun & _).
  exists profiles. split; [exact Hrun|]. split.
  - intros Hin.
    destruct (@getProfile_present _ _ _ Hrun Hin) as (body & Hbody & Hget).
    exists body. split; [exact Hbody|]. split; [exact Hget|].
    split; [now apply selectCredentials_bedrock|].
    intros Hnothing. rewrite (selectCredentials_bedrock _ Hget), Hget.
    now rewrite (assignsNothing_profileOf _ Hnothing).
  - intros Hnot. pose proof (@getProfile_absent _ _ _ Hrun Hnot) as Hnone.
    split; [exact Hnone | now apply selectCredentials_default].
Qed.

(** In [emptyBedrockFile] the [default] section has both keys and the
    [bedrock] section assigns none: the empty [bedrock] profile is
    selected. *)
Lemma bedrock_section_selected_witness :
  exists profiles,
    _parseCredentialsFile emptyBedrockFile = Ok profiles
    /\ getProfile profiles DEFAULT
       = Some (mkProfile (Some (str "D1")) (Some (str "D2")) None)
    /\ getProfile profiles BEDROCK = Some emptyObject
    /\ selectCredentials profiles = Ok (mkCredentials None None []).
Proof.
  destruct (bedrock_section_selected emptyBedrockFile)
    as (profiles & Hrun & Hin & _).
  exists profiles. split; [exact Hrun|].
  destruct Hin as (body & Hbody & _ & _ & Hnothing).
  { vm_compute. tauto. }
  vm_compute in Hbody. injection Hbody as <-.
  destruct Hnothing as [Hget Hsel]; [reflexivity|].
  split; [|split; assumption].
  vm_compute in Hrun. injection Hrun as <-. reflexivity.
Defined.

(** * Translation of the messages *)

Lemma isSystem_true (r : ChatMessageRole) : isSystem r = true <-> r = system.
Proof. destruct r; simpl; split; congruence. Qed.

Lemma filter_Subsequence {A} (f : A -> bool) (l : list A) :
  Subsequence (filter f l) l.
Proof.
  induction l as [|a l IH]; simpl; [constructor|].
  destruct (f a); now constructor.
Qed.

Lemma filter_length_systemCount (msgs : list ChatMessage) :
  length (filter (fun m => negb (isSystem (role m))) msgs) + systemCount msgs
  = length msgs.
Proof.
  unfold systemCount. induction msgs as [|m msgs IH]; simpl; [reflexivity|].
  destruct (role_eq_dec (role m) system) as [E|E].
  - rewrite E. simpl. lia.
  - destruct (isSystem (role m)) eqn:Es.
    + apply isSystem_true in Es. contradiction.
    + simpl. lia.
Qed.

(** C6.  Translation removes the system-role messages and nothing else: the
    output is the translation, message by message, of a subsequence of the
    input that holds exactly the messages whose role is not system; its
    length is the length of the input minus the number of system-role
    messages, and its roles are the non-system roles of the input in their
    order. *)
Theorem convertMessages_drops_system (msgs : list ChatMessage) :
  length (_convertMessages msgs) = length msgs - systemCount msgs
  /\ map wire_role (_convertMessages msgs)
     = filter (fun r => negb (isSystem r)) (map role msgs)
  /\ exists kept,
      Subsequence kept msgs
      /\ (forall m, In m kept <-> In m msgs /\ role m <> system)
      /\ length kept + systemCount msgs = length msgs
      /\ Forall2 translates kept (_convertMessages msgs).
Proof.
  unfold _convertMessages.
  pose proof (filter_length_systemCount msgs) as Hlen.
  split; [rewrite length_map; lia|]. split.
  - rewrite map_map. simpl. clear Hlen.
    induction msgs as [|m msgs IH]; simpl; [reflexivity|].
    destruct (isSystem (role m)); simpl; [|f_equal]; exact IH.
  - exists (filter (fun m => negb (isSystem (role m))) msgs).
    split; [apply filter_Subsequence|]. split.
    + intros m. rewrite filter_In, negb_true_iff.
      rewrite <- (isSystem_true (role m)).
      destruct (isSystem (role m)); intuition congruence.
    + split; [exact Hlen|].
      clear Hlen.
      induction (filter (fun m => negb (isSystem (role m))) msgs)
        as [|m l IH]; simpl; constructor; [now split | exact IH].
Qed.

(** * Translation of a multi-part content *)

Lemma imageData_payloadOf (part : MessagePart) :
  imageData part = match part_imageUrl_url part with
                   | Some url => payloadOf url
                   | None => None
                   end.
Proof.
  unfold imageData, payloadOf. destruct (part_imageUrl_url part); [|reflexivity].
  apply split_second.
Qed.

(** C4, as the code has it.  Translation of a multi-part content keeps the
    number and order of the parts; a text part is passed through unchanged;
    an image part becomes an embedded image of type base64 and media type
    image/jpeg whose payload is the text of the source URL between its
    first comma and its second, which is all the text after the first comma
    when that text has no comma. *)
Theorem convertMessageContent_parts (parts : list MessagePart) :
  exists out,
    _convertMessageContent (ContentParts parts) = WireParts out
    /\ length out = length parts
    /\ forall i part,
        nth_error parts i = Some part ->
        (part_type part = text -> nth_error out i = Some (SamePart part))
        /\ (part_type part = imageUrl ->
            exists d,
              nth_error out i = Some (ImagePart (jpegSource d))
              /\ d = match part_imageUrl_url part with
                     | Some url => payloadOf url
                     | None => None
                     end
              /\ forall url payload,
                  part_imageUrl_url part = Some url ->
                  afterFirst COMMA url = Some payload ->
                  includes COMMA payload = false ->
                  d = Some payload).
Proof.
  exists (map convertPart parts). split; [reflexivity|].
  split; [apply length_map|].
  intros i part Hi. rewrite nth_error_map, Hi. simpl.
  unfold convertPart, isTextPart. split; intros Ht; rewrite Ht.
  - reflexivity.
  - exists (imageData part). split; [reflexivity|].
    rewrite imageData_payloadOf. split; [reflexivity|].
    intros url payload -> Hp Hno. unfold payloadOf. rewrite Hp. simpl.
    now rewrite upTo_no_sep.
Qed.

(** A text part followed by a JPEG data URL. *)
Lemma convertMessageContent_parts_witness :
  _convertMessageContent (ContentParts [sampleTextPart; sampleImagePart])
  = WireParts [SamePart sampleTextPart;
               ImagePart (jpegSource (Some (str "QUJD")))].
Proof.
  destruct (convertMessageContent_parts [sampleTextPart; sampleImagePart])
    as (out & -> & Hlen & Hparts).
  destruct (Hparts 0 sampleTextPart eq_refl) as [Htext _].
  destruct (Hparts 1 sampleImagePart eq_refl) as [_ Himage].
  specialize (Htext eq_refl).
  destruct (Himage eq_refl) as (d & Hd & _ & Hpayload).
  rewrite (Hpayload _ (str "QUJD") eq_refl eq_refl eq_refl) in Hd.
  destruct out as [|a [|b [|c out]]]; try discriminate Hlen.
  simpl in Htext, Hd. injection Htext as ->. injection Hd as ->.
  reflexivity.
Defined.

(** C4, counterexample to the claim as stated: the text after the first
    comma of the source is [AA,BB], the payload embedded is [AA]. *)
Lemma payload_cut_at_second_comma :
  afterFirst COMMA (str "data:image/jpeg;base64,AA,BB") = Some (str "AA,BB")
  /\ _convertMessageContent (ContentParts [twoCommaPart])
     = WireParts [ImagePart (jpegSource (Some (str "AA")))].
Proof. split; reflexivity. Qed.

(** * The request body *)

Lemma streamChat_send (decode : list Byte.byte -> jsString)
    (JSON_parse : jsString -> option json)
    (send : Credentials -> Command -> result (option ResponseBody))
    (fileData : jsString) (systemMessage : option jsString)
    (messages : list ChatMessage) (options : CompletionOptions)
    (credentials : Credentials) :
  resolveCredentials fileData = Ok credentials ->
  _streamChat decode JSON_parse send fileData systemMessage messages options
  = afterSend decode JSON_parse
      (send credentials (chatCommand systemMessage messages options)).
Proof.
  unfold _streamChat, resolveCredentials, afterSend, chatCommand.
  now intros ->.
Qed.

(** C8, as the code has it.  The object serialised as the request body has
    the eight properties [anthropic_version], [max_tokens], [system],
    [messages], [temperature], [top_p], [top_k] and [stop_sequences], in this
    order, holding the fixed marker, the system message, the translated
    messages and the caller's [maxTokens], [temperature], [topP], [topK] and
    [stop].  On the wire [anthropic_version] and [messages] are always
    written, and each of the other six exactly when its value is defined; a
    number is written unchanged unless it is [NaN] or infinite (written
    [null]) or negative zero (written [0]).  Once the credentials are
    resolved, the chat sends this body, with the content type and the model
    id, and goes on from the answer to exactly this command. *)
Theorem requestBody_fields (systemMessage : option jsString)
    (messages : list ChatMessage) (options : CompletionOptions) :
  let literal := requestBody systemMessage messages options in
  let wire := stringifyProperties literal in
  map fst literal
  = [str "anthropic_version"; str "max_tokens"; str "system"; str "messages";
     str "temperature"; str "top_p"; str "top_k"; str "stop_sequences"]
  /\ JSON_stringify literal = JObject wire
  /\ map fst wire
     = str "anthropic_version"
       :: whenSet (maxTokens options) (str "max_tokens")
       ++ whenSet systemMessage (str "system")
       ++ str "messages"
       :: whenSet (temperature options) (str "temperature")
       ++ whenSet (topP options) (str "top_p")
       ++ whenSet (topK options) (str "top_k")
       ++ whenSet (stop options) (str "stop_sequences")
  /\ jsonGet (str "anthropic_version") wire = Some (JString MARKER)
  /\ jsonGet (str "max_tokens") wire
     = option_map stringifyNumber (maxTokens options)
  /\ jsonGet (str "system") wire = option_map JString systemMessage
  /\ jsonGet (str "messages") wire
     = Some (JArray (map stringifyMessage (_convertMessages messages)))
  /\ jsonGet (str "temperature") wire
     = option_map stringifyNumber (temperature options)
  /\ jsonGet (str "top_p") wire = option_map stringifyNumber (topP options)
  /\ jsonGet (str "top_k") wire = option_map stringifyNumber (topK options)
  /\ jsonGet (str "stop_sequences") wire
     = option_map (fun l => JArray (map JString l)) (stop options)
  /\ (forall x, stringifyNumber x = JNumber x <-> isPlainNumber x = true)
  /\ forall decode JSON_parse send fileData credentials,
      resolveCredentials fileData = Ok credentials ->
      _streamChat decode JSON_parse send fileData systemMessage messages
                  options
      = afterSend decode JSON_parse
          (send credentials
                (mkCommand (JSON_stringify literal) (str "application/json")
                           (model options))).
Proof.
  intros literal wire. unfold wire, literal.
  split; [reflexivity|]. split; [reflexivity|].
  destruct options as [m mt te tp tk st].
  repeat (split; [destruct mt, systemMessage, te, tp, tk, st; reflexivity|]).
  split.
  - intros x. destruct x as [[|]| [|] | | s mant e]; simpl; split;
      congruence.
  - intros decode JSON_parse send fileData credentials Hres.
    now apply streamChat_send.
Qed.

(** With every option set to a finite number, all eight properties are
    written. *)
Lemma requestBody_fields_witness :
  map fst (stringifyProperties
             (requestBody (Some (str "Be brief."))
                          [mkMessage user (ContentString (str "Hi"))]
                          sampleOptions))
  = [str "anthropic_version"; str "max_tokens"; str "system"; str "messages";
     str "temperature"; str "top_p"; str "top_k"; str "stop_sequences"]
  /\ _streamChat asciiDecode sampleParse sampleSend bothFile
       (Some (str "Be brief.")) [mkMessage user (ContentString (str "Hi"))]
       sampleOptions
     = mkRun [assistantText (str "Hel"); assistantText (str "lo")] None.
Proof.
  destruct (requestBody_fields (Some (str "Be brief."))
              [mkMessage user (ContentString (str "Hi"))] sampleOptions)
    as (_ & _ & Hnames & Hrest).
  split; [exact Hnames|].
  do 9 destruct Hrest as [_ Hrest].
  rewrite (Hrest asciiDecode sampleParse sampleSend bothFile
             (mkCredentials (Some (str "B1")) (Some (str "B2")) []) eq_refl).
  reflexivity.
Defined.

(** C8, counterexample to the claim as stated: with no option set and no
    system message, the body on the wire has the two properties
    [anthropic_version] and [messages] only; and a temperature that is
    [NaN] is written [null]. *)
Lemma unset_options_not_written :
  JSON_stringify (requestBody None [] unsetOptions)
  = JObject [(str "anthropic_version", JString MARKER);
             (str "messages", JArray [])]
  /\ jsonGet (str "max_tokens")
       (stringifyProperties (requestBody None [] unsetOptions)) = None
  /\ jsonGet (str "temperature")
       (stringifyProperties
          (requestBody None []
             (mkOptions (str "m") None (Some S754_nan) None None None)))
     = Some JNull.
Proof. repeat split. Qed.

(** * The response stream *)

Lemma deltaText_nested (parsed : json) :
  parsed <> JNull -> deltaText parsed = Ok (nestedDeltaText parsed).
Proof.
  destruct parsed; try reflexivity; [congruence|].
  intros _. unfold deltaText, nestedDeltaText. simpl. fold DELTA TEXT.
  destruct (jsonGet DELTA props) as [[]|]; reflexivity.
Qed.

Lemma nestedDeltaText_not_null (parsed c : json) :
  nestedDeltaText parsed = Some c -> parsed <> JNull.
Proof. destruct parsed; simpl; congruence. Qed.

Lemma chunkUpdate_truthy (parsed c : json) :
  nestedDeltaText parsed = Some c -> truthy (Some c) = true ->
  chunkUpdate parsed = Ok (Some (mkUpdate assistant c)).
Proof.
  intros Hc Ht. unfold chunkUpdate.
  rewrite deltaText_nested by (eapply nestedDeltaText_not_null; eauto).
  rewrite Hc. cbn [bind]. now rewrite Ht.
Qed.

Lemma chunkUpdate_nothing (parsed : json) :
  parsed <> JNull -> truthy (nestedDeltaText parsed) = false ->
  chunkUpdate parsed = Ok None.
Proof.
  intros Hp Ht. unfold chunkUpdate. rewrite deltaText_nested by exact Hp.
  cbn [bind]. destruct (nestedDeltaText parsed); [now rewrite Ht | reflexivity].
Qed.

(** A frame that is the JSON [null] ends the call: reading [delta] of
    [null] throws. *)
Lemma chunkUpdate_null : chunkUpdate JNull = Throw TypeError.
Proof. reflexivity. Qed.

(** C3, as the code has it.  A frame whose JSON has a nested [delta.text]
    with a truthy value, such as a non-empty string, makes the decoder emit
    exactly one delta, carrying that value; a frame whose JSON is not [null]
    and has no nested [delta.text], or has one with a falsy value, makes it
    emit nothing; the frames of the example decode to the deltas [Hel] and
    [lo]. *)
Theorem frame_decoding (decode : list Byte.byte -> jsString)
    (JSON_parse : jsString -> option json) :
  (forall value parsed c,
      JSON_parse (textChunk decode value) = Some parsed ->
      nestedDeltaText parsed = Some c ->
      truthy (Some c) = true ->
      onFrame decode JSON_parse value = Ok (Some (mkUpdate assistant c))
      /\ forall rest,
          decodeStream decode JSON_parse (value :: rest)
          = emit (mkUpdate assistant c) (decodeStream decode JSON_parse rest))
  /\ (forall s : jsString, truthy (Some (JString s)) = true <-> s <> [])
  /\ (forall value parsed,
         JSON_parse (textChunk decode value) = Some parsed ->
         parsed <> JNull ->
         truthy (nestedDeltaText parsed) = false ->
         onFrame decode JSON_parse value = Ok None
         /\ forall rest,
             decodeStream decode JSON_parse (value :: rest)
             = decodeStream decode JSON_parse rest)
  /\ (forall f1 f2 f3,
         JSON_parse (textChunk decode f1) = Some frameHel ->
         JSON_parse (textChunk decode f2) = Some frameLo ->
         JSON_parse (textChunk decode f3) = Some frameOther ->
         decodeStream decode JSON_parse [f1; f2; f3]
         = mkRun [assistantText (str "Hel"); assistantText (str "lo")] None).
Proof.
  assert (Hyes : forall value parsed c,
             JSON_parse (textChunk decode value) = Some parsed ->
             nestedDeltaText parsed = Some c ->
             truthy (Some c) = true ->
             onFrame decode JSON_parse value
             = Ok (Some (mkUpdate assistant c))).
  { intros value parsed c Hp Hc Ht. unfold onFrame. rewrite Hp.
    now apply chunkUpdate_truthy. }
  assert (Hno : forall value parsed,
             JSON_parse (textChunk decode value) = Some parsed ->
             parsed <> JNull ->
             truthy (nestedDeltaText parsed) = false ->
             onFrame decode JSON_parse value = Ok None).
  { intros value parsed Hp Hn Ht. unfold onFrame. rewrite Hp.
    now apply chunkUpdate_nothing. }
  split; [|split; [|split]].
  - intros value parsed c Hp Hc Ht. split; [eauto|].
    intros rest. simpl. now rewrite (Hyes _ _ _ Hp Hc Ht).
  - intros s. destruct s; simpl; split; congruence.
  - intros value parsed Hp Hn Ht. split; [eauto|].
    intros rest. simpl. now rewrite (Hno _ _ Hp Hn Ht).
  - intros f1 f2 f3 H1 H2 H3. simpl.
    rewrite (Hyes f1 frameHel (JString (str "Hel")) H1 eq_refl eq_refl).
    rewrite (Hyes f2 frameLo (JString (str "lo")) H2 eq_refl eq_refl).
    rewrite (Hno f3 frameOther H3); [reflexivity | discriminate | reflexivity].
Qed.

(** The three frames of the example, as ASCII bytes. *)
Lemma frame_decoding_witness :
  decodeStream asciiDecode sampleParse
    [frameOf (deltaFrameText (str "Hel")); frameOf (deltaFrameText (str "lo"));
     frameOf otherFrameText]
  = mkRun [assistantText (str "Hel"); assistantText (str "lo")] None.
Proof.
  apply (proj2 (proj2 (proj2 (frame_decoding asciiDecode sampleParse))));
    reflexivity.
Defined.

(** C3, counterexample to the claim as stated: the frame whose nested
    [delta.text] is the empty string has the field, and the decoder emits
    nothing for it. *)
Lemma empty_text_not_emitted :
  sampleParse (textChunk asciiDecode (frameOf (deltaFrameText [])))
  = Some frameEmptyText
  /\ nestedDeltaText frameEmptyText = Some (JString [])
  /\ onFrame asciiDecode sampleParse (frameOf (deltaFrameText [])) = Ok None
  /\ decodeStream asciiDecode sampleParse [frameOf (deltaFrameText [])]
     = mkRun [] None.
Proof. repeat split. Qed.

(** * Further properties of the response stream *)

Lemma thenRun_emit {Y} (y : Y) (r1 r2 : Run Y) :
  thenRun (emit y r1) r2 = emit y (thenRun r1 r2).
Proof.
  destruct r1 as [ys [e|]]; reflexivity.
Qed.

Lemma decodeStream_app (decode : list Byte.byte -> jsString)
    (JSON_parse : jsString -> option json) (xs ys : list StreamEvent) :
  decodeStream decode JSON_parse (xs ++ ys)
  = thenRun (decodeStream decode JSON_parse xs)
            (decodeStream decode JSON_parse ys).
Proof.
  induction xs as [|x xs IH]; simpl.
  - destruct (decodeStream decode JSON_parse ys). reflexivity.
  - destruct (onFrame decode JSON_parse x) as [[u|]|e].
    + now rewrite IH, thenRun_emit.
    + exact IH.
    + reflexivity.
Qed.

(** X1.  Frames are decoded in order and the first frame that throws ends
    the call: the deltas of the frames before it have been yielded, the
    frames after it are never read. *)
Theorem decodeStream_fail_fast (decode : list Byte.byte -> jsString)
    (JSON_parse : jsString -> option json)
    (before after : list StreamEvent) (bad : StreamEvent) (e : jsError) :
  onFrame decode JSON_parse bad = Throw e ->
  failure (decodeStream decode JSON_parse before) = None ->
  decodeStream decode JSON_parse (before ++ bad :: after)
  = mkRun (yielded (decodeStream decode JSON_parse before)) (Some e)
  /\ forall more,
      decodeStream decode JSON_parse (before ++ more)
      = mkRun (yielded (decodeStream decode JSON_parse before)
               ++ yielded (decodeStream decode JSON_parse more))
              (failure (decodeStream decode JSON_parse more)).
Proof.
  intros Hbad Hok. split.
  - rewrite decodeStream_app. unfold thenRun. rewrite Hok. simpl.
    rewrite Hbad. simpl. now rewrite app_nil_r.
  - intros more. rewrite decodeStream_app. unfold thenRun. now rewrite Hok.
Qed.

(** After the delta [Hel], a frame that is not JSON ends the call with a
    [SyntaxError]; the frame [lo] behind it is not decoded. *)
Lemma decodeStream_fail_fast_witness :
  decodeStream asciiDecode sampleParse
    ([frameOf (deltaFrameText (str "Hel"))]
     ++ frameOf (str "oops") :: [frameOf (deltaFrameText (str "lo"))])
  = mkRun [assistantText (str "Hel")] (Some SyntaxError).
Proof.
  apply (proj1 (@decodeStream_fail_fast asciiDecode sampleParse
                  [frameOf (deltaFrameText (str "Hel"))]
                  [frameOf (deltaFrameText (str "lo"))]
                  (frameOf (str "oops")) SyntaxError eq_refl eq_refl)).
Defined.

Lemma onFrame_yield (decode : list Byte.byte -> jsString)
    (JSON_parse : jsString -> option json) (value : StreamEvent) (u : Update) :
  onFrame decode JSON_parse value = Ok (Some u) ->
  update_role u = assistant /\ truthy (Some (update_content u)) = true.
Proof.
  unfold onFrame. destruct (JSON_parse (textChunk decode value)); [|discriminate].
  unfold chunkUpdate.
  destruct (deltaText j) as [[c|]|]; cbn [bind]; try discriminate.
  destruct (truthy (Some c)) eqn:Ht; [|discriminate].
  intros H. injection H as <-. now split.
Qed.

Lemma decodeStream_truthy (decode : list Byte.byte -> jsString)
    (JSON_parse : jsString -> option json) (body : list StreamEvent) :
  Forall (fun u => update_role u = assistant
                   /\ truthy (Some (update_content u)) = true)
         (yielded (decodeStream decode JSON_parse body))
  /\ length (yielded (decodeStream decode JSON_parse body)) <= length body.
Proof.
  induction body as [|value body [IHall IHlen]]; simpl.
  - split; [constructor | apply Nat.le_refl].
  - destruct (onFrame decode JSON_parse value) as [[u|]|e] eqn:Hv; simpl.
    + split; [|lia]. constructor; [|exact IHall].
      eapply onFrame_yield; eauto.
    + split; [exact IHall | lia].
    + split; [constructor | lia].
Qed.

(** X2.  Whatever the frames are, every message the decoder yields has the
    role assistant and a truthy content (never an empty string, [null],
    [false] or zero), and there are at most as many messages as frames. *)
Theorem decodeStream_yields (decode : list Byte.byte -> jsString)
    (JSON_parse : jsString -> option json) (body : list StreamEvent) :
  Forall (fun u => update_role u = assistant
                   /\ truthy (Some (update_content u)) = true
                   /\ update_content u <> JString []
                   /\ update_content u <> JNull
                   /\ update_content u <> JBool false)
         (yielded (decodeStream decode JSON_parse body))
  /\ length (yielded (decodeStream decode JSON_parse body)) <= length body.
Proof.
  destruct (decodeStream_truthy decode JSON_parse body) as [Hall Hlen].
  split; [|exact Hlen].
  eapply Forall_impl; [|exact Hall]. intros u [Hr Ht].
  repeat split; try assumption; intros Hc; rewrite Hc in Ht; discriminate.
Qed.

(** X3.  An event without chunk bytes is decoded as the empty text: with a
    [JSON.parse] that rejects the empty text, as the built-in one does, it
    ends the call with a [SyntaxError], after the deltas of the frames
    before it. *)
Theorem event_without_bytes (decode : list Byte.byte -> jsString)
    (JSON_parse : jsString -> option json) (before after : list StreamEvent) :
  JSON_parse [] = None ->
  failure (decodeStream decode JSON_parse before) = None ->
  onFrame decode JSON_parse (mkEvent None) = Throw SyntaxError
  /\ decodeStream decode JSON_parse (before ++ mkEvent None :: after)
     = mkRun (yielded (decodeStream decode JSON_parse before))
             (Some SyntaxError).
Proof.
  intros Hempty Hok.
  assert (Hbad : onFrame decode JSON_parse (mkEvent None) = Throw SyntaxError).
  { unfold onFrame, textChunk. simpl. now rewrite Hempty. }
  split; [exact Hbad|].
  rewrite decodeStream_app. unfold thenRun. rewrite Hok. simpl.
  rewrite Hbad. simpl. now rewrite app_nil_r.
Qed.

Lemma event_without_bytes_witness :
  decodeStream asciiDecode sampleParse
    ([frameOf (deltaFrameText (str "Hel"))] ++ mkEvent None :: [])
  = mkRun [assistantText (str "Hel")] (Some SyntaxError).
Proof.
  apply (proj2 (@event_without_bytes asciiDecode sampleParse
                  [frameOf (deltaFrameText (str "Hel"))] []
                  eq_refl eq_refl)).
Defined.

(** * More on strings *)

Lemma trimStart_firstKept (s : jsString) : firstKept s = true -> trimStart s = s.
Proof.
  destruct s as [|c r]; simpl; [discriminate|].
  now destruct (isWhiteSpace c).
Qed.

Lemma trimStart_edges (s : jsString) :
  trimStart s = [] \/ firstKept (trimStart s) = true.
Proof.
  induction s as [|c r IH]; simpl; [now left|].
  destruct (isWhiteSpace c) eqn:E; [exact IH|].
  right. simpl. now rewrite E.
Qed.

Lemma trimStart_snoc_kept (l : jsString) (c : N) :
  isWhiteSpace c = false -> exists w, trimStart (l ++ [c]) = w ++ [c].
Proof.
  intros Hc. induction l as [|d l IH]; simpl.
  - rewrite Hc. now exists [].
  - destruct (isWhiteSpace d); [exact IH|]. now exists (d :: l).
Qed.

Lemma trimEnd_lastKept (s : jsString) : lastKept s = true -> trimEnd s = s.
Proof.
  unfold lastKept, trimEnd. intros H.
  now rewrite trimStart_firstKept, rev_involutive.
Qed.

Lemma trim_kept (s : jsString) :
  firstKept s = true -> lastKept s = true -> trim s = s.
Proof.
  intros Hf Hl. unfold trim. rewrite (trimStart_firstKept _ Hf).
  now apply trimEnd_lastKept.
Qed.

Lemma trim_edges (s : jsString) :
  trim s = [] \/ (firstKept (trim s) = true /\ lastKept (trim s) = true).
Proof.
  unfold trim, trimEnd, lastKept.
  destruct (trimStart_edges s) as [E|E].
  - rewrite E. now left.
  - destruct (trimStart s) as [|c r]; [discriminate|].
    simpl in E. apply negb_true_iff in E.
    destruct (@trimStart_snoc_kept (rev r) c E) as [w Hw].
    simpl. rewrite Hw, rev_involutive, rev_app_distr. simpl.
    right. rewrite E. split; [reflexivity|].
    destruct (trimStart_edges (rev r ++ [c])) as [H|H]; rewrite Hw in H.
    + destruct w; discriminate.
    + exact H.
Qed.

Lemma trim_idempotent (s : jsString) : trim (trim s) = trim s.
Proof.
  destruct (trim_edges s) as [E|[Hf Hl]].
  - rewrite E. reflexivity.
  - now apply trim_kept.
Qed.

Lemma includes_app (c : N) (a b : jsString) :
  includes c (a ++ b) = includes c a || includes c b.
Proof. unfold includes. apply existsb_app. Qed.

Lemma includes_rev (c : N) (s : jsString) : includes c (rev s) = includes c s.
Proof.
  induction s as [|d r IH]; [reflexivity|].
  simpl rev. rewrite includes_app, IH. simpl. rewrite orb_false_r.
  apply orb_comm.
Qed.

Lemma includes_trimStart (c : N) (s : jsString) :
  includes c s = false -> includes c (trimStart s) = false.
Proof.
  induction s as [|d r IH]; simpl; [reflexivity|].
  intros H. destruct (isWhiteSpace d); [|exact H].
  apply IH. apply orb_false_iff in H. tauto.
Qed.

Lemma includes_trim (c : N) (s : jsString) :
  includes c s = false -> includes c (trim s) = false.
Proof.
  intros H. unfold trim, trimEnd.
  rewrite includes_rev. apply includes_trimStart.
  rewrite includes_rev. now apply includes_trimStart.
Qed.

Lemma includes_upTo_same (c : N) (s : jsString) : includes c (upTo c s) = false.
Proof.
  induction s as [|d r IH]; simpl; [reflexivity|].
  destruct (d =? c)%N eqn:E; simpl; [reflexivity|]. now rewrite E.
Qed.

Lemma includes_upTo (c d : N) (s : jsString) :
  includes c s = false -> includes c (upTo d s) = false.
Proof.
  induction s as [|x r IH]; simpl; [reflexivity|].
  intros H. apply orb_false_iff in H. destruct H as [Hx Hr].
  destruct (x =? d)%N; simpl; [reflexivity|]. now rewrite Hx, IH.
Qed.

Lemma includes_afterFirst_rest (c d : N) (s rest : jsString) :
  afterFirst d s = Some rest -> includes c s = false ->
  includes c rest = false.
Proof.
  induction s as [|x r IH]; simpl; [discriminate|].
  intros H Hs. apply orb_false_iff in Hs. destruct Hs as [Hx Hr].
  destruct (x =? d)%N; [injection H as <-; exact Hr | now apply IH].
Qed.

Lemma split_no_sep (c : N) (s l : jsString) :
  In l (split c s) -> includes c l = false.
Proof.
  revert l. induction s as [|d r IH]; simpl; intros l.
  - intros [<-|[]]. reflexivity.
  - destruct (d =? c)%N eqn:E.
    + intros [<-|H]; [reflexivity | now apply IH].
    + destruct (split c r) as [|p ps]; simpl.
      * intros [<-|[]]. simpl. now rewrite E.
      * intros [<-|H].
        -- simpl. rewrite E. apply IH. now left.
        -- apply IH. now right.
Qed.






(** * Further properties of the credentials parser *)

Lemma parseLine_trim (st : ParserState) (line : jsString) :
  parseLine st (trim line) = parseLine st line.
Proof.
  destruct st as [profiles cur]. unfold parseLine.
  now rewrite trim_idempotent.
Qed.

Lemma fieldSetter_unrecognized (k v : jsString) :
  isRecognized k = false -> fieldSetter k v = None.
Proof.
  unfold isRecognized, fieldSetter. intros H.
  apply orb_false_iff in H. destruct H as [H H3].
  apply orb_false_iff in H. destruct H as [H1 H2].
  now rewrite H1, H2, H3.
Qed.

Lemma parseLine_insignificant (st : ParserState) (line : jsString) :
  isSignificant line = false -> parseLine st line = Ok st.
Proof.
  destruct st as [profiles [cur|]]; unfold isSignificant;
    destruct (headerName line) eqn:Hh; try discriminate; intros H.
  - rewrite (parseLine_inside _ _ _ Hh).
    destruct (assignment line) as [[k v]|]; [|reflexivity].
    now rewrite (fieldSetter_unrecognized _ v H).
  - now apply parseLine_outside.
Qed.

Lemma forOf_significant (ls : list jsString) (st : ParserState) :
  forOf parseLine (map trim (filter isSignificant ls)) st
  = forOf parseLine ls st.
Proof.
  revert st. induction ls as [|l ls IH]; intros st; [reflexivity|].
  cbn [filter forOf]. destruct (isSignificant l) eqn:E.
  - cbn [map forOf]. rewrite parseLine_trim.
    destruct (parseLine st l); cbn [bind]; [apply IH | reflexivity].
  - rewrite (parseLine_insignificant st _ E). cbn [bind]. apply IH.
Qed.

(** X4.  The parse depends only on the headers and the assignments to
    recognized keys, each taken without its surrounding white space: two
    files with the same such lines give the same mapping, whatever their
    blank lines, comments, other keys, indentation and carriage returns. *)
Theorem parse_significant_lines (a b : jsString) :
  significantLines a = significantLines b ->
  _parseCredentialsFile a = _parseCredentialsFile b.
Proof.
  unfold significantLines, _parseCredentialsFile. intros H.
  fold (fileLines a) (fileLines b).
  rewrite <- (forOf_significant (fileLines a)).
  rewrite <- (forOf_significant (fileLines b)).
  now rewrite H.
Qed.

(** A file with carriage returns, blank lines, a comment and a [region]
    key parses as the same file without them. *)
Lemma parse_significant_lines_witness :
  _parseCredentialsFile noisyFile = _parseCredentialsFile bothFile.
Proof. apply parse_significant_lines. vm_compute. reflexivity. Defined.

Lemma forOf_outside (pre : list jsString) (profiles : Profiles) :
  forallb (fun l => negb (isHeader l)) pre = true ->
  forOf parseLine pre (profiles, None) = Ok (profiles, None).
Proof.
  induction pre as [|l pre IH]; cbn [forOf forallb]; [reflexivity|].
  intros H. apply andb_true_iff in H. destruct H as [Hl Hpre].
  unfold isHeader in Hl. destruct (headerName l) eqn:Hh; [discriminate|].
  rewrite (parseLine_outside _ _ Hh). cbn [bind]. now apply IH.
Qed.

(** X5.  Lines before the first header are ignored, also when they assign
    recognized keys: a file whose lines are such lines followed by the
    lines of another file parses as that other file. *)
Theorem lines_before_first_header (a b : jsString) (pre : list jsString) :
  fileLines a = pre ++ fileLines b ->
  forallb (fun l => negb (isHeader l)) pre = true ->
  _parseCredentialsFile a = _parseCredentialsFile b.
Proof.
  intros Ha Hpre. unfold _parseCredentialsFile.
  fold (fileLines a) (fileLines b).
  now rewrite Ha, forOf_app, (forOf_outside _ _ Hpre).
Qed.

Lemma lines_before_first_header_witness :
  _parseCredentialsFile headedFile = _parseCredentialsFile bothFile.
Proof.
  apply (@lines_before_first_header headedFile bothFile
           [str "aws_access_key_id = X1"; str "aws_session_token = X2"]);
    vm_compute; reflexivity.
Defined.

Lemma sectionBody_incl (ls : list jsString) : incl (sectionBody ls) ls.
Proof.
  induction ls as [|l ls IH]; simpl; [apply incl_refl|].
  destruct (isHeader l); [apply incl_nil_l|].
  apply incl_cons; [now left | now apply incl_tl].
Qed.

Lemma sections_body_incl (ls : list jsString) (n : jsString)
    (b : list jsString) :
  In (n, b) (sections ls) -> incl b ls.
Proof.
  induction ls as [|l ls IH]; simpl; [intros []|].
  destruct (headerName l).
  - intros [H|H].
    + injection H as _ <-. apply incl_tl, sectionBody_incl.
    + now apply incl_tl, IH.
  - intros H. now apply incl_tl, IH.
Qed.

Lemma lastOf_In {A} (l : list A) (x : A) : lastOf l = Some x -> In x l.
Proof.
  intros H. apply lastOf_Some in H. destruct H as [l' ->].
  apply in_or_app. right. now left.
Qed.

Lemma lastSectionNamed_incl (ls : list jsString) (n : jsString)
    (body : list jsString) :
  lastSectionNamed n (sections ls) = Some body -> incl body ls.
Proof.
  unfold lastSectionNamed.
  destruct (lastOf (filter (fun s => streq (fst s) n) (sections ls)))
    as [[m b]|] eqn:E; [|discriminate].
  simpl. intros H. injection H as <-.
  apply lastOf_In, filter_In in E. destruct E as [E _].
  eapply sections_body_incl; eauto.
Qed.

Lemma lastAssigned_In (key : jsString) (body : list jsString) (v : jsString) :
  lastAssigned key body = Some v ->
  exists l k, In l body /\ assignment l = Some (k, v).
Proof.
  unfold lastAssigned, assignedValues. intros H.
  apply lastOf_In, in_flat_map in H. destruct H as (l & Hl & Hv).
  exists l. destruct (assignment l) as [[k w]|]; [|destruct Hv].
  destruct (streq k key); [|destruct Hv].
  destruct Hv as [<-|[]]. now exists k.
Qed.

Lemma assignment_value (line k v : jsString) :
  includes LF line = false -> assignment line = Some (k, v) ->
  trim v = v /\ includes EQUALS v = false /\ includes LF v = false.
Proof.
  unfold assignment. intros Hlf.
  destruct (afterFirst EQUALS (trim line)) as [rest|] eqn:E; [|discriminate].
  intros H. injection H as _ <-. split; [apply trim_idempotent|]. split.
  - apply includes_trim, includes_upTo_same.
  - apply includes_trim, includes_upTo.
    eapply includes_afterFirst_rest; [exact E|]. now apply includes_trim.
Qed.

(** X6.  Every value stored in a parsed profile is free of surrounding white
    space, of [=] and of line feeds. *)
Theorem stored_values_plain (fileContents : jsString) (profiles : Profiles)
    (name : jsString) (p : Profile) (v : jsString) :
  _parseCredentialsFile fileContents = Ok profiles ->
  getProfile profiles name = Some p ->
  In (Some v) (fieldsOf p) ->
  trim v = v /\ includes EQUALS v = false /\ includes LF v = false.
Proof.
  intros Hrun Hget Hin.
  destruct (parse_sections fileContents) as (o & Ho & _ & Hall).
  rewrite Hrun in Ho. injection Ho as <-.
  rewrite Hall in Hget.
  destruct (lastSectionNamed name (sections (fileLines fileContents)))
    as [body|] eqn:Hbody; [|discriminate].
  simpl in Hget. injection Hget as <-.
  assert (Hv : exists key, lastAssigned key body = Some v).
  { unfold fieldsOf, profileOf in Hin. simpl in Hin.
    destruct Hin as [H|[H|[H|[]]]]; eauto. }
  destruct Hv as [key Hv].
  destruct (lastAssigned_In _ _ Hv) as (l & k & Hl & Hassign).
  apply (@assignment_value l k v); [|exact Hassign].
  apply (split_no_sep LF (trim fileContents)).
  eapply lastSectionNamed_incl; eauto.
Qed.

(** The token [T==] of a padded line is stored as [T]. *)
Lemma stored_values_plain_witness :
  trim (str "abc") = str "abc"
  /\ includes EQUALS (str "abc") = false /\ includes LF (str "abc") = false.
Proof.
  apply (@stored_values_plain paddedTokenFile
           (mkProfiles [(DEFAULT, mkProfile None None (Some (str "abc")))] None)
           DEFAULT (mkProfile None None (Some (str "abc"))) (str "abc"));
    [reflexivity | reflexivity | simpl; tauto].
Defined.

(** *** Keys *)

Lemma firstAppearance_In (x : jsString) (l : list jsString) :
  In x (firstAppearance l) <-> In x l.
Proof.
  induction l as [|a l IH]; simpl; [tauto|].
  rewrite filter_In, IH. split.
  - intros [H|[H _]]; tauto.
  - intros [H|H]; [now left|].
    destruct (streq x a) eqn:E.
    + apply streq_true in E. left. congruence.
    + right. split; [exact H | reflexivity].
Qed.

Lemma firstAppearance_NoDup (l : list jsString) : NoDup (firstAppearance l).
Proof.
  induction l as [|a l IH]; simpl; constructor.
  - rewrite filter_In, streq_refl. simpl. intros [_ H]. discriminate.
  - now apply NoDup_filter.
Qed.

Lemma insertIndex_Permutation (k : jsString) (l : list jsString) :
  Permutation (insertIndex k l) (k :: l).
Proof.
  induction l as [|a l IH]; simpl; [apply Permutation_refl|].
  destruct (digitsValue k <=? digitsValue a)%N; [apply Permutation_refl|].
  eapply perm_trans; [apply perm_skip, IH | apply perm_swap].
Qed.

Lemma sortIndices_Permutation (l : list jsString) :
  Permutation (sortIndices l) l.
Proof.
  induction l as [|a l IH]; simpl; [constructor|].
  eapply perm_trans; [apply insertIndex_Permutation | now apply perm_skip].
Qed.

Lemma propertyOrder_Permutation (l : list jsString) :
  Permutation (propertyOrder l) l.
Proof.
  unfold propertyOrder.
  eapply perm_trans;
    [apply Permutation_app_tail, sortIndices_Permutation|].
  induction l as [|a l IH]; simpl; [constructor|].
  destruct (isArrayIndex a); simpl.
  - now apply perm_skip.
  - eapply perm_trans; [apply Permutation_sym, Permutation_middle|].
    now apply perm_skip.
Qed.

(** X7.  The keys of the parsed mapping are pairwise distinct; a name is a
    key exactly when it is the name of a section of the file and is not
    [__proto__]; every key has a profile. *)
Theorem parsed_keys (fileContents : jsString) :
  exists profiles,
    _parseCredentialsFile fileContents = Ok profiles
    /\ NoDup (keys profiles)
    /\ (forall name,
           In name (keys profiles)
           <-> In name (sectionNames fileContents) /\ name <> PROTO)
    /\ forall name,
        In name (keys profiles) -> exists p, getProfile profiles name = Some p.
Proof.
  destruct (parse_sections fileContents) as (profiles & Hrun & Hkeys & Hget).
  exists profiles. split; [exact Hrun|].
  assert (Hin : forall name,
             In name (keys profiles)
             <-> In name (sectionNames fileContents) /\ name <> PROTO).
  { intros name. unfold keys. rewrite Hkeys. split.
    - intros H. apply (Permutation_in _ (propertyOrder_Permutation _)) in H.
      apply firstAppearance_In, filter_In in H. destruct H as [H Hp].
      split; [exact H|]. unfold notProto in Hp.
      apply negb_true_iff, streq_false in Hp. exact Hp.
    - intros [H Hp].
      apply (Permutation_in _ (Permutation_sym (propertyOrder_Permutation _))).
      apply firstAppearance_In, filter_In. split; [exact H|].
      unfold notProto. now apply negb_true_iff, streq_false. }
  split; [|split; [exact Hin|]].
  - unfold keys. rewrite Hkeys.
    apply (Permutation_NoDup (Permutation_sym (propertyOrder_Permutation _))).
    apply firstAppearance_NoDup.
  - intros name H. apply Hin in H. destruct H as [H _].
    destruct (lastSectionNamed_In _ _ H) as [body Hbody].
    exists (profileOf body). now rewrite Hget, Hbody.
Qed.

(** *** From the file to the credentials *)

(** X8.  The credentials of a call are those of the last [bedrock] section
    of the file; without a [bedrock] section, those of the last [default]
    section; with neither, the call throws a [TypeError].  So they are
    resolved exactly when the file has a section of one of the two names. *)
Theorem resolveCredentials_sections (fileContents : jsString) :
  let secs := sections (fileLines fileContents) in
  resolveCredentials fileContents
  = match lastSectionNamed BEDROCK secs with
    | Some body => Ok (credentialsOf (profileOf body))
    | None =>
        match lastSectionNamed DEFAULT secs with
        | Some body => Ok (credentialsOf (profileOf body))
        | None => Throw TypeError
        end
    end
  /\ ((exists credentials, resolveCredentials fileContents = Ok credentials)
      <-> In BEDROCK (sectionNames fileContents)
          \/ In DEFAULT (sectionNames fileContents)).
Proof.
  intros secs.
  destruct (parse_sections fileContents) as (profiles & Hrun & _ & Hget).
  assert (Hform : resolveCredentials fileContents
                  = match lastSectionNamed BEDROCK secs with
                    | Some body => Ok (credentialsOf (profileOf body))
                    | None =>
                        match lastSectionNamed DEFAULT secs with
                        | Some body => Ok (credentialsOf (profileOf body))
                        | None => Throw TypeError
                        end
                    end).
  { unfold resolveCredentials. rewrite Hrun. cbn [bind].
    unfold selectCredentials. rewrite !Hget. fold secs.
    destruct (lastSectionNamed BEDROCK secs); [reflexivity|].
    destruct (lastSectionNamed DEFAULT secs); reflexivity. }
  split; [exact Hform|]. rewrite Hform. unfold sectionNames. fold secs. split.
  - intros [c Hc].
    destruct (lastSectionNamed BEDROCK secs) eqn:Eb.
    + left. destruct (in_dec (list_eq_dec N.eq_dec) BEDROCK (map fst secs))
        as [H|H]; [exact H|].
      rewrite (lastSectionNamed_not_In _ _ H) in Eb. discriminate.
    + destruct (lastSectionNamed DEFAULT secs) eqn:Ed; [|discriminate].
      right. destruct (in_dec (list_eq_dec N.eq_dec) DEFAULT (map fst secs))
        as [H|H]; [exact H|].
      rewrite (lastSectionNamed_not_In _ _ H) in Ed. discriminate.
  - intros [H|H]; destruct (lastSectionNamed_In _ _ H) as [body Hbody].
    + rewrite Hbody. eauto.
    + destruct (lastSectionNamed BEDROCK secs); [eauto|].
      rewrite Hbody. eauto.
Qed.

(** * Writing a store and reading it back *)



























(** * Further properties of the translation *)

(** X10.  An image part is sent without data exactly when it has no source
    URL or its URL has no comma; the payload of an image part never holds a
    comma; such a part is still translated to an embedded JPEG image. *)
Theorem image_payload_edges (part : MessagePart) :
  (imageData part = None
   <-> part_imageUrl_url part = None
       \/ exists url, part_imageUrl_url part = Some url
                      /\ includes COMMA url = false)
  /\ (forall d, imageData part = Some d -> includes COMMA d = false)
  /\ (part_type part = imageUrl ->
      convertPart part = ImagePart (jpegSource (imageData part))).
Proof.
  rewrite imageData_payloadOf. unfold payloadOf. split; [|split].
  - destruct (part_imageUrl_url part) as [url|];
      [|split; intros; [now left | reflexivity]].
    destruct (afterFirst COMMA url) as [rest|] eqn:E; simpl.
    + split; [discriminate|]. intros [H|(u & Hu & Hno)]; [discriminate|].
      injection Hu as <-. apply includes_false_afterFirst in Hno. congruence.
    + split; [|reflexivity]. intros _. right. exists url.
      split; [reflexivity|]. now apply includes_false_afterFirst.
  - intros d. destruct (part_imageUrl_url part) as [url|]; [|discriminate].
    destruct (afterFirst COMMA url); simpl; [|discriminate].
    intros H. injection H as <-. apply includes_upTo_same.
  - intros Ht. unfold convertPart, isTextPart. rewrite Ht.
    now rewrite imageData_payloadOf.
Qed.

Lemma image_payload_edges_witness :
  convertPart noCommaPart = ImagePart (jpegSource None).
Proof.
  destruct (image_payload_edges noCommaPart) as (Hnone & _ & Himage).
  rewrite (Himage eq_refl).
  replace (imageData noCommaPart) with (@None jsString); [reflexivity|].
  symmetry. apply Hnone. right.
  exists (str "https://example.com/cat.jpg"). split; reflexivity.
Defined.

(** X11.  Translation goes message by message: the translation of two
    conversations joined is the translations joined; it is empty exactly
    when every message has the system role; no translated message has the
    system role. *)
Theorem convertMessages_app :
  (forall a b : list ChatMessage,
      _convertMessages (a ++ b) = _convertMessages a ++ _convertMessages b)
  /\ (forall msgs : list ChatMessage,
         _convertMessages msgs = [] <-> Forall (fun m => role m = system) msgs)
  /\ (forall msgs : list ChatMessage,
         Forall (fun w => wire_role w <> system) (_convertMessages msgs)).
Proof.
  unfold _convertMessages. split; [|split].
  - intros a b. now rewrite filter_app, map_app.
  - intros msgs. induction msgs as [|m msgs IH]; simpl.
    + split; [constructor | reflexivity].
    + destruct (isSystem (role m)) eqn:E; simpl.
      * apply isSystem_true in E. rewrite IH. split.
        -- now constructor.
        -- intros H. now inversion H.
      * split; [discriminate|]. intros H. inversion H as [|? ? Hm _]; subst.
        apply isSystem_true in Hm. congruence.
  - intros msgs. induction msgs as [|m msgs IH]; simpl; [constructor|].
    destruct (isSystem (role m)) eqn:E; simpl; [exact IH|].
    constructor; [|exact IH]. simpl. intros H.
    apply isSystem_true in H. congruence.
Qed.

(** * The chat and completion operations *)

Lemma consume_truthy (decode : list Byte.byte -> jsString)
    (JSON_parse : jsString -> option json) (body : ResponseBody) :
  Forall (fun u => update_role u = assistant
                   /\ truthy (Some (update_content u)) = true)
         (yielded (consume decode JSON_parse body)).
Proof.
  unfold consume.
  destruct (decodeStream_truthy decode JSON_parse (delivered body)) as [H _].
  destruct (failure (decodeStream decode JSON_parse (delivered body)));
    exact H.
Qed.

Lemma resolveCredentials_In (fileData : jsString) (credentials : Credentials) :
  resolveCredentials fileData = Ok credentials ->
  In BEDROCK (sectionNames fileData) \/ In DEFAULT (sectionNames fileData).
Proof.
  intros Hres.
  destruct (parse_sections fileData) as (o & Hrun & _ & Hget).
  unfold resolveCredentials in Hres. rewrite Hrun in Hres.
  cbn [bind] in Hres. unfold selectCredentials in Hres.
  rewrite !Hget in Hres. unfold sectionNames.
  destruct (in_dec (list_eq_dec N.eq_dec) BEDROCK
              (map fst (sections (fileLines fileData)))) as [H|Hb];
    [now left|].
  destruct (in_dec (list_eq_dec N.eq_dec) DEFAULT
              (map fst (sections (fileLines fileData)))) as [H|Hd];
    [now right|].
  rewrite (lastSectionNamed_not_In _ _ Hb) in Hres.
  rewrite (lastSectionNamed_not_In _ _ Hd) in Hres. discriminate.
Qed.

(** X12.  A chat yields a message only when the file has a [bedrock] or a
    [default] section and the transport has answered with a body, whose
    events it then handles; every message it yields has the role assistant
    and a truthy content.  When [client.send] throws, the chat ends with
    that exception and no message; a response without body ends it with no
    message and no failure; when the stream of the body fails after some
    events, the chat ends with that failure after the messages of the events
    delivered, unless one of them has already ended it. *)
Theorem streamChat_outcomes (decode : list Byte.byte -> jsString)
    (JSON_parse : jsString -> option json)
    (send : Credentials -> Command -> result (option ResponseBody))
    (fileData : jsString) (systemMessage : option jsString)
    (messages : list ChatMessage) (options : CompletionOptions) :
  let run := _streamChat decode JSON_parse send fileData systemMessage
                         messages options in
  let command := chatCommand systemMessage messages options in
  Forall (fun u => update_role u = assistant
                   /\ truthy (Some (update_content u)) = true) (yielded run)
  /\ (yielded run <> [] ->
      (In BEDROCK (sectionNames fileData) \/ In DEFAULT (sectionNames fileData))
      /\ exists credentials body,
          resolveCredentials fileData = Ok credentials
          /\ send credentials command = Ok (Some body)
          /\ run = consume decode JSON_parse body)
  /\ (forall credentials e,
         resolveCredentials fileData = Ok credentials ->
         send credentials command = Throw e -> run = mkRun [] (Some e))
  /\ (forall credentials,
         resolveCredentials fileData = Ok credentials ->
         send credentials command = Ok None -> run = mkRun [] None)
  /\ (forall credentials body,
         resolveCredentials fileData = Ok credentials ->
         send credentials command = Ok (Some body) ->
         let handled := decodeStream decode JSON_parse (delivered body) in
         (failure handled = None ->
          run = mkRun (yielded handled) (rejection body))
         /\ (forall e, failure handled = Some e -> run = handled)).
Proof.
  intros run command. unfold run, command.
  destruct (resolveCredentials fileData) as [credentials|e] eqn:Hres.
  - rewrite (streamChat_send decode JSON_parse send _ systemMessage messages
               options Hres).
    destruct (send credentials (chatCommand systemMessage messages options))
      as [[body|]|e] eqn:Hsend; simpl afterSend.
    + split; [apply consume_truthy|]. split.
      * intros _. split; [eapply resolveCredentials_In; eauto|].
        now exists credentials, body.
      * split; [|split].
        -- intros c e Hc Hs. injection Hc as <-. rewrite Hsend in Hs.
           discriminate.
        -- intros c Hc Hs. injection Hc as <-. rewrite Hsend in Hs.
           discriminate.
        -- intros c b Hc Hs. injection Hc as <-. rewrite Hsend in Hs.
           injection Hs as <-. unfold consume. simpl. split.
           ++ now intros ->.
           ++ now intros e ->.
    + split; [constructor|]. split; [intros H; now contradiction H|].
      split; [|split].
      * intros c e Hc Hs. injection Hc as <-. rewrite Hsend in Hs.
        discriminate.
      * reflexivity.
      * intros c b Hc Hs. injection Hc as <-. rewrite Hsend in Hs.
        discriminate.
    + split; [constructor|]. split; [intros H; now contradiction H|].
      split; [|split].
      * intros c e' Hc Hs. injection Hc as <-. rewrite Hsend in Hs.
        injection Hs as <-. reflexivity.
      * intros c Hc Hs. injection Hc as <-. rewrite Hsend in Hs.
        discriminate.
      * intros c b Hc Hs. injection Hc as <-. rewrite Hsend in Hs.
        discriminate.
  - assert (Hrun : _streamChat decode JSON_parse send fileData systemMessage
                     messages options = mkRun [] (Some e)).
    { unfold _streamChat. unfold resolveCredentials in Hres.
      now rewrite Hres. }
    rewrite Hrun.
    split; [constructor|]. split; [intros H; now contradiction H|].
    repeat split; intros; discriminate.
Qed.

(** A stream that delivers [Hel] and then fails: the message is yielded and
    the chat ends with the failure of the transport. *)
Lemma streamChat_outcomes_witness :
  _streamChat asciiDecode sampleParse brokenSend bothFile
    (Some (str "Be brief.")) [mkMessage user (ContentString (str "Hi"))]
    sampleOptions
  = mkRun [assistantText (str "Hel")] (Some TransportError).
Proof.
  destruct (streamChat_outcomes asciiDecode sampleParse brokenSend bothFile
              (Some (str "Be brief."))
              [mkMessage user (ContentString (str "Hi"))]
              sampleOptions) as (_ & _ & _ & _ & Hbody).
  destruct (Hbody (mkCredentials (Some (str "B1")) (Some (str "B2")) [])
                  (mkBody [frameOf (deltaFrameText (str "Hel"))]
                          (Some TransportError)) eq_refl eq_refl)
    as [Hrej _].
  rewrite (Hrej eq_refl). reflexivity.
Defined.

Lemma yieldEach_all {X Y} (f : X -> result Y) (xs : list X) (ys : list Y)
    (ending : option jsError) :
  Forall2 (fun y x => f x = Ok y) ys xs ->
  yieldEach f xs ending = mkRun ys ending.
Proof.
  induction 1 as [|y x ys xs Hx _ IH]; simpl; [reflexivity|].
  now rewrite Hx, IH.
Qed.

Lemma yieldEach_throw {X Y} (f : X -> result Y) (before after : list X)
    (x : X) (ys : list Y) (e : jsError) (ending : option jsError) :
  Forall2 (fun y x => f x = Ok y) ys before ->
  f x = Throw e ->
  yieldEach f (before ++ x :: after) ending = mkRun ys (Some e).
Proof.
  intros Hall Hx. induction Hall as [|y x' ys xs Hx' _ IH]; simpl.
  - now rewrite Hx.
  - now rewrite Hx', IH.
Qed.

(** X13.  A completion is the chat of one message, the prompt with the role
    user and its text unchanged, which is what goes on the wire.  It yields
    [stripImages] of the contents of the chat's messages, in order and one
    for one: when [stripImages] returns on all of them, it yields all the
    strings and ends as the chat ends; when it throws on one of them, the
    completion has yielded the strings of the messages before that one and
    ends with that exception. *)
Theorem streamComplete_yields (decode : list Byte.byte -> jsString)
    (JSON_parse : jsString -> option json)
    (send : Credentials -> Command -> result (option ResponseBody))
    (stripImages : json -> result jsString)
    (fileData : jsString) (systemMessage : option jsString)
    (prompt : jsString) (options : CompletionOptions) :
  let messages := [mkMessage user (ContentString prompt)] in
  let chat := _streamChat decode JSON_parse send fileData systemMessage
                          messages options in
  let run := _streamComplete decode JSON_parse send stripImages fileData
                             systemMessage prompt options in
  let stripped := fun s u => stripImages (update_content u) = Ok s in
  (forall credentials,
      resolveCredentials fileData = Ok credentials ->
      chat = afterSend decode JSON_parse
               (send credentials (chatCommand systemMessage messages options)))
  /\ jsonGet (str "messages")
       (stringifyProperties (requestBody systemMessage messages options))
     = Some (JArray [JObject [(str "role", JString (str "user"));
                              (str "content", JString prompt)]])
  /\ (forall strings,
         Forall2 stripped strings (yielded chat) ->
         run = mkRun strings (failure chat))
  /\ (forall strings before u after e,
         yielded chat = before ++ u :: after ->
         Forall2 stripped strings before ->
         stripImages (update_content u) = Throw e ->
         run = mkRun strings (Some e)).
Proof.
  intros messages chat run stripped. split; [|split; [|split]].
  - intros credentials Hres. now apply streamChat_send.
  - unfold messages. destruct options as [m [mt|] te tp tk st];
      destruct systemMessage; reflexivity.
  - intros strings Hall. unfold run, _streamComplete. fold messages chat.
    now apply yieldEach_all.
  - intros strings before u after e Hsplit Hall Hu.
    unfold run, _streamComplete. fold messages chat. rewrite Hsplit.
    now apply yieldEach_throw.
Qed.

(** The completion of the example: the deltas [Hel] and [lo] as strings. *)
Lemma streamComplete_yields_witness :
  _streamComplete asciiDecode sampleParse sampleSend sampleStrip bothFile
    (Some (str "Be brief.")) (str "Hi") sampleOptions
  = mkRun [str "Hel"; str "lo"] None.
Proof.
  destruct (streamComplete_yields asciiDecode sampleParse sampleSend
              sampleStrip bothFile (Some (str "Be brief.")) (str "Hi")
              sampleOptions) as (_ & _ & Hall & _).
  rewrite (Hall [str "Hel"; str "lo"]); [reflexivity|].
  repeat constructor.
Defined.
